(** * Mandelbrot explorer (cpp_example_102e19.cpp): a shallow embedding

    The program maps every pixel of a fixed 800 x 600 grid to a point of the
    complex plane, iterates z <- z*z + c at most MAX_ITERATIONS times and
    prints one character per pixel.

    Data model:
    - [double] is IEEE 754 binary64, modelled by Rocq's primitive [float]
      (round to nearest, ties to even; one NaN); every operation of the
      source is rounded once, to binary64 (no fused multiply-add, no wider
      intermediate format);
    - [int] is modelled by [Z]; every [int] the program computes stays far
      inside the 32-bit range (see [getColor_no_overflow]);
    - [std::complex<double>] is a pair of doubles;
    - [std::cout] is the list of characters written so far; a function that
      prints takes the stream and returns it extended. *)

From Stdlib Require Import ZArith List Ascii Bool Lia Floats.
From Stdlib Require String.
Import ListNotations.
Import String.StringSyntax.
Delimit Scope string_scope with string.

Local Open Scope Z_scope.

(** ** Constants of the translation unit *)

Definition WIDTH : Z := 800.
Definition HEIGHT : Z := 600.
Definition MAX_ITERATIONS : Z := 100.

(** ** [std::complex<double>] *)

Module StdComplex.

Record complex : Type := Complex { real : float; imag : float }.

(** [operator+] of <complex>: componentwise. *)
Definition add (z w : complex) : complex :=
  Complex (real z + real w)%float (imag z + imag w)%float.

(** Modelled from the spec: [operator*] of <complex> is library code, not
    part of this repository.  The spec gives "standard complex
    multiplication: (a+bi)^2 = a^2 - b^2 + 2abi"; for two operands this is
    (a+bi)(c+di) = (ac - bd) + (ad + bc)i, every operation rounded to
    binary64. *)
Definition mul (z w : complex) : complex :=
  Complex (real z * real w - imag z * imag w)%float
          (real z * imag w + imag z * real w)%float.

(** Modelled from the spec: [std::abs] on a complex number is library code,
    not part of this repository.  The spec gives "the magnitude
    |z| = sqrt(a^2 + b^2)". *)
Definition abs (z : complex) : float :=
  PrimFloat.sqrt (real z * real z + imag z * imag z)%float.

End StdComplex.

Import StdComplex.

Declare Scope complex_scope.
Delimit Scope complex_scope with complex.
Bind Scope complex_scope with complex.
Infix "+" := StdComplex.add : complex_scope.
Infix "*" := StdComplex.mul : complex_scope.

(** The test [std::abs(z) > 2.0]. *)
Definition escaped (z : complex) : bool := (2 <? StdComplex.abs z)%float.

(** ** Partial computations

    A loop is a recursive function on a fuel argument that bounds how often
    the loop test is evaluated; [None] means the fuel ran out before the
    loop was left.  The totality lemmas below show that this never happens
    with the fuel the functions are given. *)

Definition bind {A B : Type} (m : option A) (k : A -> option B) : option B :=
  match m with
  | Some a => k a
  | None => None
  end.

Notation "x <- m ;; k" := (bind m (fun x => k))
  (at level 61, m at next level, right associativity).

(** ** The escape-time evaluator

    [int mandelbrot(const std::complex<double>& c, int& iterations)].

    The result is the pair (returned value, value left in [iterations]).
    [mandelbrot_loop fuel c z i iterations] is the [for] loop entered with
    the loop variable at [i], the orbit at [z] and the caller's variable
    holding [iterations]. *)

Fixpoint mandelbrot_loop (fuel : nat) (c z : complex) (i : Z) (iterations : Z)
  : option (Z * Z) :=
  match fuel with
  | O => None
  | S fuel' =>
      if i <? MAX_ITERATIONS then
        let z := (z * z + c)%complex in
        if escaped z then
          let iterations := i in
          Some (i, iterations)
        else mandelbrot_loop fuel' c z (i + 1) iterations
      else
        let iterations := MAX_ITERATIONS in
        Some (MAX_ITERATIONS, iterations)
  end.

Definition mandelbrot_fuel : nat := Z.to_nat (MAX_ITERATIONS + 1).

Definition mandelbrot (c : complex) (iterations : Z) : option (Z * Z) :=
  let z := Complex 0 0 in
  mandelbrot_loop mandelbrot_fuel c z 0 iterations.

(** The orbit of [c]: z_0 = 0 and z_(n+1) = z_n * z_n + c, as the loop
    computes it. *)
Fixpoint orbit (c : complex) (n : nat) : complex :=
  match n with
  | O => Complex 0 0
  | S n' => (orbit c n' * orbit c n' + c)%complex
  end.

(** ** The coordinate mapper *)

(** [(double)n] for an [int] n: the value of n, which binary64 represents
    exactly. *)
Definition int_to_double (n : Z) : float :=
  if n <? 0 then (- of_uint63 (Uint63.of_Z (- n)))%float
  else of_uint63 (Uint63.of_Z n).

Definition pixelToComplex (x y : Z) (zoom offsetX offsetY : float) : complex :=
  let real := (int_to_double x / int_to_double WIDTH * 4 - 2)%float in
  let imag := (int_to_double y / int_to_double HEIGHT * 4 - 2)%float in
  let real := (real / zoom + offsetX)%float in
  let imag := (imag / zoom + offsetY)%float in
  Complex real imag.

(** The integer [n] rounded to the nearest binary64 value, by the
    specification of the format rather than by the machine conversion. *)
Definition Z2double (n : Z) : float :=
  SF2Prim (binary_normalize prec emax n 0 false).

(** The integer a number of the format denotes, when it denotes one. *)
Definition SF2Z (f : spec_float) : option Z :=
  match f with
  | S754_zero _ => Some 0
  | S754_finite s m e =>
      if 0 <=? e then Some (cond_Zopp s (Z.pos m * 2 ^ e))
      else if Z.pos m mod 2 ^ (- e) =? 0
           then Some (cond_Zopp s (Z.pos m / 2 ^ (- e)))
           else None
  | _ => None
  end.

(** [(double)n] denotes [n]. *)
Definition converts_exactly (n : Z) : bool :=
  match SF2Z (Prim2SF (int_to_double n)) with
  | Some k => k =? n
  | None => false
  end.

(** ** The colour selector *)

Record Color : Type := mkColor { r : Z; g : Z; b : Z }.

(** C++ [%] and [/] on [int] truncate towards zero: [Z.rem] and [Z.quot]. *)
Definition getColor (iterations : Z) : Color :=
  if iterations =? MAX_ITERATIONS then mkColor 0 0 0
  else
    let hue := Z.rem (iterations * 10) 256 in
    mkColor hue (Z.quot hue 2) (Z.quot hue 4).

Definition INT_MIN : Z := - 2 ^ 31.
Definition INT_MAX : Z := 2 ^ 31 - 1.

(** ** The frame renderer *)

(** [std::cout]: the characters written so far, oldest first. *)
Definition ostream : Type := list ascii.

Definition space : ascii := " "%char.
Definition star : ascii := "*"%char.
Definition newline : ascii := "010"%char.

(** [os << s] for a string literal [s]. *)
Definition write (s : list ascii) (os : ostream) : ostream := os ++ s.

(** [os << std::endl]: a line feed (the flush leaves the characters as
    they are). *)
Definition endl (os : ostream) : ostream := os ++ [newline].

(** [for (int i = lo; i < hi; ++i) body], the body a stream transformer
    that may itself run out of fuel. *)
Fixpoint for_loop (fuel : nat) (i hi : Z)
    (body : Z -> ostream -> option ostream) (os : ostream) : option ostream :=
  match fuel with
  | O => None
  | S fuel' =>
      if i <? hi then
        os' <- body i os ;;
        for_loop fuel' (i + 1) hi body os'
      else Some os
  end.

(** The body of the inner loop: one pixel. *)
Definition renderPixel (zoom offsetX offsetY : float) (y x : Z) (os : ostream)
  : option ostream :=
  let c := pixelToComplex x y zoom offsetX offsetY in
  let iterations := 0 in
  res <- mandelbrot c iterations ;;
  let iterations := snd res in
  let color := getColor iterations in
  if iterations =? MAX_ITERATIONS then Some (write [space] os)
  else Some (write [star] os).

(** The body of the outer loop: one row. *)
Definition renderRow (zoom offsetX offsetY : float) (y : Z) (os : ostream)
  : option ostream :=
  os' <- for_loop (Z.to_nat (WIDTH + 1)) 0 WIDTH
           (renderPixel zoom offsetX offsetY y) os ;;
  Some (endl os').

Definition renderMandelbrot (zoom offsetX offsetY : float) (os : ostream)
  : option ostream :=
  for_loop (Z.to_nat (HEIGHT + 1)) 0 HEIGHT (renderRow zoom offsetX offsetY) os.

(** The glyph the renderer chooses for an iteration count. *)
Definition count_glyph (n : Z) : ascii :=
  if n =? MAX_ITERATIONS then space else star.

(** The integers lo, lo+1, ..., lo+n-1. *)
Fixpoint zrange (lo : Z) (n : nat) : list Z :=
  match n with
  | O => []
  | S n' => lo :: zrange (lo + 1) n'
  end.

(** A text made of lines, each line ended by a line feed. *)
Definition unlines (rows : list (list ascii)) : list ascii :=
  concat (map (fun row => row ++ [newline]) rows).

(** A text read line by line: the characters before each line feed.
    [cur] holds the characters of the line being read, newest first; an
    unfinished last line counts as a line. *)
Fixpoint lines_from (cur text : list ascii) : list (list ascii) :=
  match text with
  | [] => match cur with
          | [] => []
          | _ :: _ => [rev cur]
          end
  | ch :: rest =>
      if Ascii.eqb ch newline then rev cur :: lines_from [] rest
      else lines_from (ch :: cur) rest
  end.

Definition lines (text : list ascii) : list (list ascii) := lines_from [] text.

(** The count the evaluator returns for [c].  The evaluator always returns
    ([mandelbrot_inv]), so the second branch is never taken. *)
Definition escape_count (c : complex) : Z :=
  match mandelbrot c 0 with
  | Some (n, _) => n
  | None => MAX_ITERATIONS
  end.

(** The frame of a view as the spec describes it: row y, column x holds the
    glyph of the count of pixel (x, y). *)
Definition pixel_glyph (zoom offsetX offsetY : float) (x y : Z) : ascii :=
  count_glyph (escape_count (pixelToComplex x y zoom offsetX offsetY)).

Definition frame_row (zoom offsetX offsetY : float) (y : Z) : list ascii :=
  map (fun x => pixel_glyph zoom offsetX offsetY x y)
      (zrange 0 (Z.to_nat WIDTH)).

Definition frame (zoom offsetX offsetY : float) : list (list ascii) :=
  map (frame_row zoom offsetX offsetY) (zrange 0 (Z.to_nat HEIGHT)).

(** The first step of the mapper: pixel index [n] of [size] placed in
    [-2, 2). *)
Definition normalised (n size : Z) : float :=
  (int_to_double n / int_to_double size * 4 - 2)%float.

(** [below B f]: the number [f] is a zero, or finite with |f| < 2^B. *)
Definition below (B : Z) (f : spec_float) : bool :=
  match f with
  | S754_zero _ => true
  | S754_finite _ m e => Z.pos (digits2_pos m) + e <=? B
  | _ => false
  end.

(** [above B f]: the number [f] is an infinity, or finite with
    |f| >= 2^(B-1). *)
Definition above (B : Z) (f : spec_float) : bool :=
  match f with
  | S754_infinity _ => true
  | S754_finite _ m e => B <=? Z.pos (digits2_pos m) + e
  | _ => false
  end.


(** Every normalised coordinate of the grid is a zero or finite and below
    4 in magnitude. *)
Definition normalised_below (size n : Z) : bool :=
  below 2 (Prim2SF (normalised n size)).

(** ** The driver *)

(** The characters of a string literal. *)
Definition text (s : String.string) : list ascii :=
  String.list_ascii_of_string s.

(** [int main()]: the value returned and the stream it leaves.  Each
    [\n] of a literal is written out as [newline]. *)
Definition main (os : ostream) : option (Z * ostream) :=
  let os :=
    write (text "Welcome to the Mandelbrot Fractal Explorer Tutorial!"%string
           ++ [newline]) os in
  let os :=
    write (text "This program will generate a textual representation of the Mandelbrot set."%string
           ++ [newline]) os in
  let os :=
    write (text "Pay attention to the comments explaining complex numbers and the iteration process."%string
           ++ [newline; newline]) os in
  let os := write (text "Rendering default view..."%string ++ [newline]) os in
  os <- renderMandelbrot 1 0 0 os ;;
  let os :=
    write ([newline] ++ text "Rendering a zoomed-in view..."%string ++ [newline]) os in
  os <- renderMandelbrot 30 (-0.75) 0 os ;;
  let os :=
    write ([newline] ++ text "Tutorial finished. Happy exploring!"%string
           ++ [newline]) os in
  Some (0, os).

(** The lines [main] prints around the two frames. *)
Definition banner : list (list ascii) :=
  [ text "Welcome to the Mandelbrot Fractal Explorer Tutorial!"%string;
    text "This program will generate a textual representation of the Mandelbrot set."%string;
    text "Pay attention to the comments explaining complex numbers and the iteration process."%string;
    [];
    text "Rendering default view..."%string ].

Definition interlude : list (list ascii) :=
  [ []; text "Rendering a zoomed-in view..."%string ].

Definition farewell : list (list ascii) :=
  [ []; text "Tutorial finished. Happy exploring!"%string ].

(** ** Notions used by the further properties *)

(** The complex conjugate. *)
Definition conj (c : complex) : complex :=
  Complex (real c) (- imag c)%float.

(** A frame of one glyph. *)
Definition uniform_frame (ch : ascii) : list (list ascii) :=
  repeat (repeat ch (Z.to_nat WIDTH)) (Z.to_nat HEIGHT).

(** Two numbers of the format that are opposite, or both zeros (of any
    signs). *)
Definition SFopposite (f g : spec_float) : Prop :=
  f = SFopp g \/ ((exists s, f = S754_zero s) /\ (exists s, g = S754_zero s)).

Definition opposite (x y : float) : Prop :=
  SFopposite (Prim2SF x) (Prim2SF y).

(** [w] mirrors [z] in the real axis: the same real part and opposite
    imaginary parts. *)
Definition mirrored (z w : complex) : Prop :=
  real z = real w /\ opposite (imag z) (imag w).

(** A zero, a finite number or an infinity of sign [s]. *)
Definition signed (s : bool) (f : spec_float) : Prop :=
  match f with
  | S754_zero s' | S754_infinity s' | S754_finite s' _ _ => s' = s
  | S754_nan => False
  end.

(** The exact value of a zero or finite number of the format, as an
    integer mantissa and a binary exponent: the number is m * 2^e. *)
Definition dyadic (f : spec_float) : option (Z * Z) :=
  match f with
  | S754_zero _ => Some (0, 0)
  | S754_finite s m e => Some (cond_Zopp s (Z.pos m), e)
  | _ => None
  end.

(** [outside_closed_disc c]: both parts of [c] are finite and the exact
    magnitude of [c] exceeds 2, that is, a^2 + b^2 > 4 for the exact values
    a = A * 2^e and b = B * 2^e of the parts, compared in integers with no
    rounding. *)
Definition outside_closed_disc (c : complex) : bool :=
  match dyadic (Prim2SF (real c)), dyadic (Prim2SF (imag c)) with
  | Some (ma, ea), Some (mb, eb) =>
      let e := Z.min ea eb in
      let A := ma * 2 ^ (ea - e) in
      let B := mb * 2 ^ (eb - e) in
      if 0 <=? e then 4 <? (A * A + B * B) * 2 ^ (2 * e)
      else 4 * 2 ^ (- (2 * e)) <? A * A + B * B
  | _, _ => false
  end.

(** A part that is NaN, or of magnitude at most 2^500, so that its square
    does not overflow. *)
Definition nan_or_small (x : float) : bool :=
  is_nan x || (PrimFloat.abs x <=? 0x1p500)%float.

(** All entries of a list increase strictly, in the order of [float]. *)
Fixpoint all_above (x : float) (l : list float) : bool :=
  match l with
  | [] => true
  | y :: l' => (x <? y)%float && all_above x l'
  end.

Fixpoint strictly_increasing (l : list float) : bool :=
  match l with
  | [] => true
  | x :: l' => all_above x l' && strictly_increasing l'
  end.

(** * The escape-time evaluator *)

Section Evaluator.

Variable c : complex.

Lemma orbit_succ (i : Z) :
  0 <= i ->
  (orbit c (Z.to_nat i) * orbit c (Z.to_nat i) + c)%complex
  = orbit c (Z.to_nat (i + 1)).
Proof.
  intros Hi. rewrite Z2Nat.inj_add by lia.
  rewrite Nat.add_comm. reflexivity.
Qed.

(** The loop entered at index [i] with the orbit at z_i and enough fuel
    for the remaining tests leaves through one of its two exits with the
    same number in both channels: the first index from [i] on whose
    update escapes, or [MAX_ITERATIONS]. *)
Lemma mandelbrot_loop_inv (fuel : nat) :
  forall (i iterations : Z),
    0 <= i <= MAX_ITERATIONS ->
    (Z.to_nat (MAX_ITERATIONS - i) < fuel)%nat ->
    exists n : Z,
      mandelbrot_loop fuel c (orbit c (Z.to_nat i)) i iterations = Some (n, n)
      /\ i <= n <= MAX_ITERATIONS
      /\ (forall k, i <= k < n -> escaped (orbit c (Z.to_nat (k + 1))) = false)
      /\ (n < MAX_ITERATIONS -> escaped (orbit c (Z.to_nat (n + 1))) = true).
Proof.
  induction fuel as [|fuel IH]; intros i iterations Hi Hfuel; [lia|].
  cbn [mandelbrot_loop].
  destruct (i <? MAX_ITERATIONS) eqn:Htest.
  - apply Z.ltb_lt in Htest.
    rewrite orbit_succ by lia.
    destruct (escaped (orbit c (Z.to_nat (i + 1)))) eqn:Hesc.
    + exists i. repeat split; try lia. intros _. exact Hesc.
    + destruct (IH (i + 1) iterations) as (n & Hrun & Hn & Hbelow & Hat);
        [lia | lia |].
      exists n. repeat split; try lia; try assumption.
      intros k Hk. destruct (Z.eq_dec k i) as [->|Hne]; [exact Hesc|].
      apply Hbelow. lia.
  - apply Z.ltb_ge in Htest.
    exists MAX_ITERATIONS. repeat split; try lia.
Qed.

(** The evaluator always returns: the fuel it is given is enough. *)
Lemma mandelbrot_inv (iterations : Z) :
  exists n : Z,
    mandelbrot c iterations = Some (n, n)
    /\ 0 <= n <= MAX_ITERATIONS
    /\ (forall k, 0 <= k < n -> escaped (orbit c (Z.to_nat (k + 1))) = false)
    /\ (n < MAX_ITERATIONS -> escaped (orbit c (Z.to_nat (n + 1))) = true).
Proof.
  unfold mandelbrot.
  apply (mandelbrot_loop_inv mandelbrot_fuel 0 iterations).
  - unfold MAX_ITERATIONS. lia.
  - unfold mandelbrot_fuel, MAX_ITERATIONS. lia.
Qed.

(** More fuel changes nothing once the loop has returned. *)
Lemma mandelbrot_loop_fuel_mono (fuel : nat) :
  forall z i iterations res,
    mandelbrot_loop fuel c z i iterations = Some res ->
    mandelbrot_loop (S fuel) c z i iterations = Some res.
Proof.
  induction fuel as [|fuel IH]; intros z i iterations res H; [discriminate|].
  cbn [mandelbrot_loop] in H |- *.
  destruct (i <? MAX_ITERATIONS); [|exact H].
  destruct (escaped (z * z + c)); [exact H|].
  apply IH. exact H.
Qed.

End Evaluator.

(** C1: for every c the evaluator returns a value in
    [0, MAX_ITERATIONS], and the value is MAX_ITERATIONS exactly when the
    magnitude of the orbit never exceeded 2.0 over the MAX_ITERATIONS updates
    z_1, ..., z_100 that start from z_0 = 0. *)
Theorem mandelbrot_range_and_cap (c : complex) (iterations : Z) :
  exists n out : Z,
    mandelbrot c iterations = Some (n, out)
    /\ 0 <= n <= MAX_ITERATIONS
    /\ (n = MAX_ITERATIONS <->
        forall k : nat, (1 <= k <= Z.to_nat MAX_ITERATIONS)%nat ->
          (2 <? StdComplex.abs (orbit c k))%float = false).
Proof.
  destruct (mandelbrot_inv c iterations) as (n & Hrun & Hn & Hbelow & Hat).
  exists n, n. split; [exact Hrun|]. split; [exact Hn|]. split.
  - intros -> k Hk.
    specialize (Hbelow (Z.of_nat k - 1)).
    replace (Z.of_nat k - 1 + 1) with (Z.of_nat k) in Hbelow by lia.
    rewrite Nat2Z.id in Hbelow. apply Hbelow.
    unfold MAX_ITERATIONS in *. lia.
  - intros Hnever.
    destruct (Z.eq_dec n MAX_ITERATIONS) as [|Hne]; [assumption|].
    assert (Hlt : n < MAX_ITERATIONS) by lia.
    specialize (Hat Hlt). unfold escaped in Hat.
    rewrite Hnever in Hat; [discriminate|].
    unfold MAX_ITERATIONS in *. lia.
Qed.

(** Every [return] of the loop, from whatever state it is entered, is
    preceded by the assignment of the same value to [iterations]. *)
Lemma mandelbrot_loop_channels (fuel : nat) :
  forall (c z : complex) (i iterations : Z) (res : Z * Z),
    mandelbrot_loop fuel c z i iterations = Some res -> fst res = snd res.
Proof.
  induction fuel as [|fuel IH]; intros c z i iterations res H; [discriminate|].
  cbn [mandelbrot_loop] in H.
  destruct (i <? MAX_ITERATIONS).
  - destruct (escaped (z * z + c)).
    + injection H as <-. reflexivity.
    + exact (IH _ _ _ _ _ H).
  - injection H as <-. reflexivity.
Qed.

(** C9: for every c the evaluator returns, and on every path the value it
    returns is the value it writes through [iterations], whatever the
    variable held before. *)
Theorem mandelbrot_return_eq_out_param (c : complex) (iterations : Z) :
  exists ret out : Z,
    mandelbrot c iterations = Some (ret, out) /\ ret = out.
Proof.
  destruct (mandelbrot_inv c iterations) as (n & Hrun & _).
  exists n, n. split; [exact Hrun|].
  exact (mandelbrot_loop_channels _ _ _ _ _ _ Hrun).
Qed.

(** * Rounding in the specification format

    The operations of [float] are specified on [spec_float] by a shift of
    the mantissa to the format's exponent, a rounding of the last place and
    an overflow test.  The lemmas below follow a bound 2^B on the magnitude
    through these steps; they are what shows that a result is finite. *)

Module Rounding.

Lemma fexp_eq (e : Z) : fexp prec emax e = Z.max (e - 53) (-1074).
Proof. reflexivity. Qed.

Lemma Zdigits2_nonneg (m : Z) : 0 <= Zdigits2 m.
Proof. destruct m; cbn; lia. Qed.

Lemma digits2_pos_bounds (p : positive) :
  2 ^ (Z.pos (digits2_pos p) - 1) <= Z.pos p < 2 ^ Z.pos (digits2_pos p).
Proof.
  induction p as [p IH|p IH|]; cbn [digits2_pos].
  - rewrite Pos2Z.inj_succ.
    replace (Z.succ (Z.pos (digits2_pos p)) - 1)
      with (Z.succ (Z.pos (digits2_pos p) - 1)) by lia.
    rewrite !Z.pow_succ_r by lia. lia.
  - rewrite Pos2Z.inj_succ.
    replace (Z.succ (Z.pos (digits2_pos p)) - 1)
      with (Z.succ (Z.pos (digits2_pos p) - 1)) by lia.
    rewrite !Z.pow_succ_r by lia. lia.
  - cbn. lia.
Qed.

Lemma Zdigits2_lt_pow (m k : Z) : 0 <= k -> 0 <= m < 2 ^ k -> Zdigits2 m <= k.
Proof.
  intros Hk Hm. destruct m as [|p|p]; cbn [Zdigits2]; [lia| |lia].
  pose proof (digits2_pos_bounds p) as [Hlo _].
  assert (Hlt : 2 ^ (Z.pos (digits2_pos p) - 1) < 2 ^ k) by lia.
  apply Z.pow_lt_mono_r_iff in Hlt; lia.
Qed.

Lemma digits2_pos_succ (p : positive) :
  Z.pos (digits2_pos (Pos.succ p)) <= Z.pos (digits2_pos p) + 1.
Proof.
  induction p as [p IH|p IH|]; cbn [Pos.succ digits2_pos]; lia.
Qed.

Lemma Zdigits2_succ (m : Z) : 0 <= m -> Zdigits2 (m + 1) <= Zdigits2 m + 1.
Proof.
  intros Hm. destruct m as [|p|p]; [cbn; lia| |lia].
  replace (Z.pos p + 1) with (Z.pos (Pos.succ p)) by lia.
  cbn [Zdigits2]. apply digits2_pos_succ.
Qed.

Lemma Zdigits2_div2 (m : Z) :
  0 <= m -> Zdigits2 (Z.div2 m) = Z.max (Zdigits2 m - 1) 0.
Proof.
  intros Hm. destruct m as [|[p|p|]|p]; cbn [Z.div2 Pos.div2 Zdigits2 digits2_pos]; lia.
Qed.

Lemma shr_1_m (mrs : shr_record) :
  0 <= shr_m mrs -> shr_m (shr_1 mrs) = Z.div2 (shr_m mrs).
Proof.
  destruct mrs as [m r s]. cbn [shr_m]. intros Hm.
  destruct m as [|[p|p|]|p]; cbn; try reflexivity; lia.
Qed.

Lemma iter_shr_1 (p : positive) :
  forall mrs,
    0 <= shr_m mrs ->
    0 <= shr_m (iter_pos shr_1 p mrs)
    /\ Zdigits2 (shr_m (iter_pos shr_1 p mrs))
       = Z.max (Zdigits2 (shr_m mrs) - Z.pos p) 0.
Proof.
  assert (Hstep : forall mrs, 0 <= shr_m mrs ->
            0 <= shr_m (shr_1 mrs)
            /\ Zdigits2 (shr_m (shr_1 mrs)) = Z.max (Zdigits2 (shr_m mrs) - 1) 0).
  { intros mrs Hm. rewrite shr_1_m by exact Hm. split.
    - apply Z.div2_nonneg. exact Hm.
    - apply Zdigits2_div2. exact Hm. }
  induction p as [p IH|p IH|]; intros mrs Hm; cbn [iter_pos].
  - destruct (Hstep mrs Hm) as [H1 E1].
    destruct (IH _ H1) as [H2 E2]. destruct (IH _ H2) as [H3 E3].
    split; [exact H3|]. rewrite E3, E2, E1. lia.
  - destruct (IH _ Hm) as [H2 E2]. destruct (IH _ H2) as [H3 E3].
    split; [exact H3|]. rewrite E3, E2. lia.
  - apply Hstep. exact Hm.
Qed.

Lemma shr_record_of_loc_m (m : Z) (l : location) :
  shr_m (shr_record_of_loc m l) = m.
Proof. destruct l as [|[| |]]; reflexivity. Qed.

(** The first step of rounding keeps a number below 2^B and brings its
    exponent to the format's. *)
Lemma shr_fexp_bound (m e : Z) (l : location) (B : Z) :
  0 <= m -> Zdigits2 m + e <= B -> -1021 <= B ->
  forall mrs e',
    shr_fexp prec emax m e l = (mrs, e') ->
    0 <= shr_m mrs
    /\ Zdigits2 (shr_m mrs) + e' <= B
    /\ e' <= Z.max e (B - 53).
Proof.
  intros Hm HD HB mrs e'. unfold shr_fexp, shr. rewrite fexp_eq.
  pose proof (shr_record_of_loc_m m l) as Hrec.
  destruct (Z.max (Zdigits2 m + e - 53) (-1074) - e) as [|p|p] eqn:En;
    intros H; injection H as <- <-.
  - rewrite Hrec. lia.
  - destruct (iter_shr_1 p (shr_record_of_loc m l)) as [H1 E1];
      [rewrite Hrec; exact Hm|].
    rewrite Hrec in E1. rewrite E1. lia.
  - rewrite Hrec. lia.
Qed.

Lemma round_nearest_even_bound (m : Z) (l : location) :
  0 <= m ->
  0 <= round_nearest_even m l
  /\ Zdigits2 (round_nearest_even m l) <= Zdigits2 m + 1.
Proof.
  intros Hm. pose proof (Zdigits2_succ m Hm).
  unfold round_nearest_even.
  destruct l as [|[| |]]; try destruct (Z.even m); split; lia.
Qed.

(** Rounding a number below 2^B gives a zero or a finite number below
    2^(B+1): there is no overflow while B <= 1023. *)
Lemma round_bound (s : bool) (m e : Z) (l : location) (B : Z) :
  0 <= m -> Zdigits2 m + e <= B -> e <= 971 -> -1021 <= B <= 1023 ->
  below (B + 1) (binary_round_aux prec emax s m e l) = true.
Proof.
  intros Hm HD He HB. unfold binary_round_aux.
  destruct (shr_fexp prec emax m e l) as [mrs1 e1] eqn:E1.
  destruct (shr_fexp_bound m e l B Hm HD ltac:(lia) _ _ E1) as (Hm1 & HD1 & He1).
  destruct (round_nearest_even_bound (shr_m mrs1) (loc_of_shr_record mrs1) Hm1)
    as [Hm2 Hd2].
  destruct (shr_fexp prec emax _ e1 loc_Exact) as [mrs3 e3] eqn:E3.
  destruct (shr_fexp_bound _ e1 loc_Exact (B + 1) Hm2 ltac:(lia) ltac:(lia) _ _ E3)
    as (Hm3 & HD3 & He3).
  destruct (shr_m mrs3) as [|p|p]; [reflexivity| |lia].
  replace (e3 <=? emax - prec) with true
    by (symmetry; apply Z.leb_le; change (emax - prec) with 971; lia).
  cbn [below Zdigits2] in *. apply Z.leb_le. lia.
Qed.


(** *** Division *)

Lemma div_core_bound (m1 m2 : positive) (e1 e2 B : Z) :
  Z.pos (digits2_pos m1) + e1 - (Z.pos (digits2_pos m2) + e2) + 1 <= B ->
  -1021 <= B <= 1023 ->
  forall q e' l,
    SFdiv_core_binary prec emax (Z.pos m1) e1 (Z.pos m2) e2 = (q, e', l) ->
    0 <= q /\ Zdigits2 q + e' <= B /\ e' <= 971.
Proof.
  intros HD HB q e' l. unfold SFdiv_core_binary. rewrite fexp_eq.
  cbn [Zdigits2].
  set (d1 := Z.pos (digits2_pos m1)) in *.
  set (d2 := Z.pos (digits2_pos m2)) in *.
  set (ez := Z.min (Z.max (d1 + e1 - (d2 + e2) - 53) (-1074)) (e1 - e2)).
  set (s := e1 - e2 - ez).
  assert (Hs : 0 <= s) by (unfold s, ez; lia).
  set (m' := match s with
             | 0 => Z.pos m1
             | Z.pos _ => Z.shiftl (Z.pos m1) s
             | Z.neg _ => 0
             end).
  assert (Hm' : m' = Z.pos m1 * 2 ^ s).
  { unfold m'. destruct s as [|p|p] eqn:Es; [lia| |lia].
    apply Z.shiftl_mul_pow2. lia. }
  destruct (Z.div_eucl m' (Z.pos m2)) as [q0 r0] eqn:Ediv.
  intros H. injection H as <- <- _.
  assert (Hq : q0 = m' / Z.pos m2) by (unfold Z.div; rewrite Ediv; reflexivity).
  pose proof (digits2_pos_bounds m1) as [_ Hm1]. fold d1 in Hm1.
  pose proof (digits2_pos_bounds m2) as [Hm2 _]. fold d2 in Hm2.
  assert (Hd2 : 1 <= d2) by (unfold d2; lia).
  set (k := Z.max (d1 + s - d2 + 1) 0).
  assert (Hpow : 2 ^ (d1 + s) <= 2 ^ (d2 - 1) * 2 ^ k).
  { rewrite <- Z.pow_add_r by (unfold k; lia).
    apply Z.pow_le_mono_r; unfold k; lia. }
  assert (Hm1s : m' < 2 ^ (d1 + s)).
  { rewrite Hm', Z.pow_add_r by (unfold d1; lia).
    apply Z.mul_lt_mono_pos_r; [apply Z.pow_pos_nonneg; lia | exact Hm1]. }
  assert (Hk : 0 < 2 ^ k) by (apply Z.pow_pos_nonneg; unfold k; lia).
  assert (Hq0 : 0 <= q0).
  { rewrite Hq. apply Z.div_pos; [|lia].
    rewrite Hm'. apply Z.mul_nonneg_nonneg; [lia|].
    apply Z.pow_nonneg. lia. }
  assert (Hqk : q0 < 2 ^ k).
  { rewrite Hq. apply Z.div_lt_upper_bound; [lia|]. nia. }
  pose proof (Zdigits2_lt_pow q0 k ltac:(unfold k; lia) ltac:(lia)) as Hdq.
  split; [exact Hq0|]. unfold k, s, ez in *. lia.
Qed.

Lemma SFdiv_below (x y : spec_float) (Bx By : Z) :
  below Bx x = true -> above By y = true ->
  -1021 <= Bx - By + 1 <= 1023 ->
  below (Bx - By + 2) (SFdiv prec emax x y) = true.
Proof.
  intros Hx Hy HB.
  destruct x as [sx|sx| |sx mx ex]; try discriminate Hx;
    destruct y as [sy|sy| |sy my ey]; try discriminate Hy;
    cbn [SFdiv]; try reflexivity.
  cbn [below above] in Hx, Hy.
  apply Z.leb_le in Hx. apply Z.leb_le in Hy.
  destruct (SFdiv_core_binary prec emax (Z.pos mx) ex (Z.pos my) ey)
    as [[q e'] l] eqn:Ecore.
  destruct (div_core_bound mx my ex ey (Bx - By + 1) ltac:(lia) HB _ _ _ Ecore)
    as (Hq & HD & He).
  replace (Bx - By + 2) with (Bx - By + 1 + 1) by lia.
  apply round_bound; assumption.
Qed.

(** *** Addition *)

Lemma iter_xO_digits (m d : positive) :
  Z.pos (digits2_pos (Pos.iter xO m d)) = Z.pos (digits2_pos m) + Z.pos d.
Proof.
  induction d as [|d IH] using Pos.peano_ind.
  - cbn. lia.
  - rewrite Pos.iter_succ. cbn [digits2_pos]. lia.
Qed.

Lemma shl_align_digits (m : positive) (e e0 : Z) :
  forall m' e',
    shl_align m e e0 = (m', e') ->
    e' = Z.min e e0
    /\ Z.pos (digits2_pos m') + e' = Z.pos (digits2_pos m) + e.
Proof.
  intros m' e'. unfold shl_align.
  destruct (e0 - e) as [|d|d] eqn:Ed; intros H; injection H as <- <-.
  - lia.
  - lia.
  - rewrite iter_xO_digits. lia.
Qed.

Lemma binary_round_below (s : bool) (m : positive) (e B : Z) :
  Z.pos (digits2_pos m) + e <= B -> e <= 971 -> -1021 <= B <= 1023 ->
  below (B + 1) (binary_round prec emax s m e) = true.
Proof.
  intros HD He HB. unfold binary_round.
  destruct (shl_align m e _) as [mz ez] eqn:Ealign.
  apply shl_align_digits in Ealign. destruct Ealign as [Hez HDz].
  apply round_bound; cbn [Zdigits2]; lia.
Qed.

Lemma binary_normalize_below (m e B : Z) :
  Zdigits2 m + e <= B -> e <= 971 -> -1021 <= B <= 1023 ->
  below (B + 1) (binary_normalize prec emax m e false) = true.
Proof.
  intros HD He HB.
  destruct m as [|p|p]; cbn [binary_normalize Zdigits2] in *;
    [reflexivity | |]; apply binary_round_below; assumption.
Qed.

Lemma Zdigits2_abs_lt_pow (m k : Z) :
  0 <= k -> - 2 ^ k < m < 2 ^ k -> Zdigits2 m <= k.
Proof.
  intros Hk Hm. destruct m as [|p|p]; [cbn; lia| |].
  - apply Zdigits2_lt_pow; lia.
  - change (Zdigits2 (Z.neg p)) with (Zdigits2 (Z.pos p)).
    apply Zdigits2_lt_pow; lia.
Qed.

Lemma valid_binary_exponent (s : bool) (m : positive) (e : Z) :
  valid_binary (S754_finite s m e) = true ->
  e <= 971 /\ Z.pos (digits2_pos m) <= 53 /\ (-1074 < e -> Z.pos (digits2_pos m) = 53).
Proof.
  cbn [SpecFloat.valid_binary]. unfold bounded, canonical_mantissa.
  rewrite fexp_eq. intros H. apply andb_true_iff in H. destruct H as [Hc Hb].
  apply Z.eqb_eq in Hc. apply Z.leb_le in Hb.
  change (emax - prec) with 971 in Hb. lia.
Qed.

Lemma SFadd_below (x y : spec_float) (B : Z) :
  valid_binary x = true -> valid_binary y = true ->
  below B x = true -> below B y = true ->
  -1022 <= B <= 1022 ->
  below (B + 2) (SFadd prec emax x y) = true.
Proof.
  intros Vx Vy Hx Hy HB.
  destruct x as [sx|sx| |sx mx ex]; try discriminate Hx;
    destruct y as [sy|sy| |sy my ey]; try discriminate Hy;
    cbn [SFadd].
  - destruct sx, sy; reflexivity.
  - cbn [below] in *. apply Z.leb_le. apply Z.leb_le in Hy. lia.
  - cbn [below] in *. apply Z.leb_le. apply Z.leb_le in Hx. lia.
  - cbn [below] in Hx, Hy. apply Z.leb_le in Hx. apply Z.leb_le in Hy.
    apply valid_binary_exponent in Vx, Vy.
    destruct (shl_align mx ex (Z.min ex ey)) as [mx' ex'] eqn:Ex.
    destruct (shl_align my ey (Z.min ex ey)) as [my' ey'] eqn:Ey.
    apply shl_align_digits in Ex, Ey. cbn [fst].
    destruct Ex as [Hex HDx]. destruct Ey as [Hey HDy].
    pose proof (digits2_pos_bounds mx') as [_ Hmx].
    pose proof (digits2_pos_bounds my') as [_ Hmy].
    set (k := B - Z.min ex ey) in *.
    assert (Hk : 0 <= k) by (unfold k; lia).
    assert (Hpx : 2 ^ Z.pos (digits2_pos mx') <= 2 ^ k)
      by (apply Z.pow_le_mono_r; unfold k; lia).
    assert (Hpy : 2 ^ Z.pos (digits2_pos my') <= 2 ^ k)
      by (apply Z.pow_le_mono_r; unfold k; lia).
    assert (Hk1 : 2 ^ (k + 1) = 2 * 2 ^ k)
      by (rewrite Z.pow_add_r by lia; lia).
    replace (B + 2) with (B + 1 + 1) by lia.
    apply binary_normalize_below; [|lia|lia].
    assert (Hd : Zdigits2 (cond_Zopp sx (Z.pos mx') + cond_Zopp sy (Z.pos my'))
                 <= k + 1).
    { apply Zdigits2_abs_lt_pow; [lia|].
      destruct sx, sy; cbn [cond_Zopp]; lia. }
    unfold k in Hd. lia.
Qed.

End Rounding.

(** * Binary64 facts *)

Module Binary64.

Local Open Scope float_scope.

(** Adding +0 on the left returns the other operand, except that -0
    becomes +0. *)
Lemma add_zero_l (x : float) :
  0 + x = x \/ (x = neg_zero /\ 0 + x = 0).
Proof.
  destruct (Prim2SF x) as [[|]| | |] eqn:E.
  - right. assert (Hx : x = neg_zero).
    { rewrite <- (SF2Prim_Prim2SF x), E. reflexivity. }
    split; [exact Hx|]. rewrite Hx. reflexivity.
  - left. apply Prim2SF_inj. rewrite add_spec, E. reflexivity.
  - left. apply Prim2SF_inj. rewrite add_spec, E. reflexivity.
  - left. apply Prim2SF_inj. rewrite add_spec, E. reflexivity.
  - left. apply Prim2SF_inj. rewrite add_spec, E. reflexivity.
Qed.

(** The square does not see the sign of a zero. *)
Lemma sq_add_zero_l (x : float) : (0 + x) * (0 + x) = x * x.
Proof.
  destruct (add_zero_l x) as [->|[-> ->]]; reflexivity.
Qed.

(** *** Classes of numbers, read off the specification format *)

Lemma SFeqb_refl_finite (s : bool) (m : positive) (e : Z) :
  SFeqb (S754_finite s m e) (S754_finite s m e) = true.
Proof.
  unfold SFeqb, SFcompare.
  rewrite Z.compare_refl, Pos.compare_cont_refl. destruct s; reflexivity.
Qed.

Lemma is_infinity_SF (x : float) :
  is_infinity x = true <-> exists s, Prim2SF x = S754_infinity s.
Proof.
  unfold is_infinity. rewrite eqb_spec, abs_spec.
  destruct (Prim2SF x) as [s|s| |s m e]; cbn; split;
    try discriminate; try (intros [s' H]; discriminate H).
  - intros _. exists s. reflexivity.
  - intros _. reflexivity.
Qed.

Lemma is_finite_SF (x : float) :
  is_finite x = true <->
  (exists s, Prim2SF x = S754_zero s)
  \/ (exists s m e, Prim2SF x = S754_finite s m e).
Proof.
  unfold is_finite, is_nan, is_infinity.
  rewrite !eqb_spec, abs_spec.
  destruct (Prim2SF x) as [s|s| |s m e]; cbn [SFabs].
  - split; [intros _; left; exists s; reflexivity | intros _; reflexivity].
  - split; [destruct s; discriminate|].
    intros [[s' H]|(s' & m & e & H)]; discriminate H.
  - split; [discriminate|].
    intros [[s' H]|(s' & m & e & H)]; discriminate H.
  - rewrite SFeqb_refl_finite. cbn.
    split; [intros _; right; exists s, m, e; reflexivity | reflexivity].
Qed.

Lemma below_is_finite (B : Z) (x : float) :
  below B (Prim2SF x) = true -> is_finite x = true.
Proof.
  intros H. apply is_finite_SF.
  destruct (Prim2SF x) as [s|s| |s m e]; try discriminate H.
  - left. exists s. reflexivity.
  - right. exists s, m, e. reflexivity.
Qed.

Lemma is_infinity_cases (x : float) :
  is_infinity x = true -> x = infinity \/ x = neg_infinity.
Proof.
  intros H. apply is_infinity_SF in H. destruct H as [s H].
  rewrite <- (SF2Prim_Prim2SF x), H.
  destruct s; [right|left]; reflexivity.
Qed.



(** *** Magnitude bounds through division and addition *)


Lemma div_below (x y : float) (Bx By : Z) :
  below Bx (Prim2SF x) = true -> above By (Prim2SF y) = true ->
  (-1021 <= Bx - By + 1 <= 1023)%Z ->
  below (Bx - By + 2) (Prim2SF (x / y)) = true.
Proof. intros. rewrite div_spec. apply Rounding.SFdiv_below; assumption. Qed.

Lemma below_mono (B B' : Z) (f : spec_float) :
  (B <= B')%Z -> below B f = true -> below B' f = true.
Proof.
  intros HB. destruct f as [s|s| |s m e]; cbn [below]; try easy.
  rewrite !Z.leb_le. lia.
Qed.

Lemma add_below (x y : float) (B : Z) :
  below B (Prim2SF x) = true -> below B (Prim2SF y) = true ->
  (-1022 <= B <= 1022)%Z ->
  below (B + 2) (Prim2SF (x + y)) = true.
Proof.
  intros. rewrite add_spec.
  apply Rounding.SFadd_below; try assumption; apply Prim2SF_valid.
Qed.

(** |z| >= 2^-1000 *)
Lemma abs_ge_above (z : float) :
  (0x1p-1000 <=? PrimFloat.abs z) = true -> above (-999) (Prim2SF z) = true.
Proof.
  rewrite leb_spec, abs_spec.
  change (Prim2SF 0x1p-1000) with (S754_finite false 4503599627370496 (-1052)).
  pose proof (Prim2SF_valid z) as V.
  destruct (Prim2SF z) as [s|s| |s m e]; cbn [SFabs above]; try easy.
  apply Rounding.valid_binary_exponent in V.
  unfold SFleb, SFcompare.
  destruct (Z.compare_spec (-1052) e) as [He|He|He]; intros H;
    try discriminate H; apply Z.leb_le; lia.
Qed.

Lemma abs_le_below (o : float) :
  (PrimFloat.abs o <=? 0x1p1000) = true -> below 1001 (Prim2SF o) = true.
Proof.
  rewrite leb_spec, abs_spec.
  change (Prim2SF 0x1p1000) with (S754_finite false 4503599627370496 948).
  pose proof (Prim2SF_valid o) as V.
  destruct (Prim2SF o) as [s|s| |s m e]; cbn [SFabs below]; try easy.
  apply Rounding.valid_binary_exponent in V.
  unfold SFleb, SFcompare.
  destruct (Z.compare_spec e 948) as [He|He|He]; intros H;
    try discriminate H; apply Z.leb_le; lia.
Qed.
End Binary64.

(** The first update of the orbit has the magnitude of [c]. *)
Lemma abs_first_update (c : complex) :
  StdComplex.abs (Complex 0 0 * Complex 0 0 + c)%complex = StdComplex.abs c.
Proof.
  destruct c as [cr ci].
  unfold StdComplex.abs, StdComplex.add, StdComplex.mul. cbn [real imag].
  replace (0 * 0 - 0 * 0)%float with 0%float by reflexivity.
  replace (0 * 0 + 0 * 0)%float with 0%float by reflexivity.
  rewrite !Binary64.sq_add_zero_l. reflexivity.
Qed.

(** A first update that passes the escape test makes the evaluator return
    at index 0. *)
Lemma mandelbrot_first_update (c : complex) (iterations : Z) :
  escaped (Complex 0 0 * Complex 0 0 + c)%complex = true ->
  mandelbrot c iterations = Some (0, 0).
Proof.
  intros Hesc. unfold mandelbrot, mandelbrot_fuel.
  change (Z.to_nat (MAX_ITERATIONS + 1)) with (S (Z.to_nat MAX_ITERATIONS)).
  cbn [mandelbrot_loop].
  change (0 <? MAX_ITERATIONS) with true. cbv iota.
  rewrite Hesc. reflexivity.
Qed.

(** C10, as the code has it: when the magnitude of c, as [std::abs]
    computes it in binary64, exceeds 2.0 the evaluator returns 0: the first
    update has the magnitude of c and passes the escape test at index 0. *)
Theorem mandelbrot_outside_disc (c : complex) (iterations : Z) :
  (2 <? StdComplex.abs c)%float = true ->
  mandelbrot c iterations = Some (0, 0).
Proof.
  intros Habs. apply mandelbrot_first_update.
  unfold escaped. rewrite abs_first_update. exact Habs.
Qed.

Lemma mandelbrot_outside_disc_witness :
  (2 <? StdComplex.abs (Complex 3 0))%float = true
  /\ mandelbrot (Complex 3 0) 0 = Some (0, 0).
Proof.
  split; [reflexivity|].
  apply (mandelbrot_outside_disc (Complex 3 0) 0). reflexivity.
Defined.

(** [outside_closed_disc] on points inside, on and outside the circle of
    radius 2. *)
Lemma outside_closed_disc_examples :
  outside_closed_disc (Complex 1 1) = false
  /\ outside_closed_disc (Complex 2 0) = false
  /\ outside_closed_disc (Complex 0 (-2)) = false
  /\ outside_closed_disc (Complex 1.5 1.5) = true
  /\ outside_closed_disc (Complex 3 0) = true
  /\ outside_closed_disc (Complex 2 0x1p-1074) = true.
Proof. vm_compute. repeat split; reflexivity. Qed.

(** C10 as stated fails next to the circle: the point c = 2 + 2^-600 i
    lies outside the closed disc of radius 2 (4 + 2^-1200 > 4), but in
    binary64 the sum 4 + 2^-1200 rounds to 4, [std::abs] gives exactly 2.0,
    the test at index 0 fails and the evaluator returns 1, not 0. *)
Lemma outside_disc_not_index_0 :
  outside_closed_disc (Complex 2 0x1p-600) = true
  /\ StdComplex.abs (Complex 2 0x1p-600) = 2%float
  /\ (2 <? StdComplex.abs (Complex 2 0x1p-600))%float = false
  /\ mandelbrot (Complex 2 0x1p-600) 0 = Some (1, 1).
Proof. vm_compute. repeat split; reflexivity. Qed.

(** The magnitude the evaluator tests is the rounded one.  For
    c = 2 + 2^-600 i the sum 4 + 2^-1200 rounds to 4, so [std::abs] gives
    exactly 2.0, the test at index 0 fails and the evaluator returns 1. *)
Remark magnitude_is_rounded :
  StdComplex.abs (Complex 2 0x1p-600) = 2%float
  /\ mandelbrot (Complex 2 0x1p-600) 0 = Some (1, 1).
Proof. split; vm_compute; reflexivity. Qed.

(** * The coordinate mapper *)

Lemma zrange_In (n : nat) :
  forall lo k, lo <= k < lo + Z.of_nat n -> In k (zrange lo n).
Proof.
  induction n as [|n IH]; intros lo k Hk; [lia|].
  cbn [zrange]. destruct (Z.eq_dec lo k) as [->|Hne]; [left; reflexivity|].
  right. apply IH. lia.
Qed.

(** The machine conversion of a non-negative [int] is the correctly
    rounded one. *)
Lemma int_to_double_correct (n : Z) :
  0 <= n <= INT_MAX -> int_to_double n = Z2double n.
Proof.
  intros Hn. unfold int_to_double, Z2double.
  destruct (n <? 0) eqn:Hneg; [apply Z.ltb_lt in Hneg; lia|].
  rewrite <- (SF2Prim_Prim2SF (of_uint63 (Uint63.of_Z n))).
  rewrite of_uint63_spec, Uint63.of_Z_spec.
  rewrite Z.mod_small; [reflexivity|].
  unfold INT_MAX in Hn. change Uint63.wB with (2 ^ 63). lia.
Qed.

Lemma converts_exactly_WIDTH :
  forallb converts_exactly (zrange 0 (Z.to_nat WIDTH)) = true.
Proof. vm_compute. reflexivity. Qed.

(** On the grid the conversion loses nothing: [(double)n] denotes [n]. *)
Lemma Z2double_exact (n : Z) :
  0 <= n < WIDTH -> SF2Z (Prim2SF (Z2double n)) = Some n.
Proof.
  intros Hn.
  rewrite <- int_to_double_correct by (unfold WIDTH, INT_MAX in *; lia).
  pose proof converts_exactly_WIDTH as Hall.
  rewrite forallb_forall in Hall.
  assert (Hin : In n (zrange 0 (Z.to_nat WIDTH))) by (apply zrange_In; lia).
  specialize (Hall n Hin). unfold converts_exactly in Hall.
  destruct (SF2Z (Prim2SF (int_to_double n))) as [k|]; [|discriminate].
  apply Z.eqb_eq in Hall. subst k. reflexivity.
Qed.

(** C3: for a pixel of the grid the mapper returns the point with real
    part (x/WIDTH * 4 - 2) / zoom + offsetX and imaginary part
    (y/HEIGHT * 4 - 2) / zoom + offsetY, every operation in binary64 and x, y
    converted to binary64 first, which represents them exactly. *)
Theorem pixelToComplex_formula (x y : Z) (zoom offsetX offsetY : float) :
  0 <= x < WIDTH ->
  0 <= y < HEIGHT ->
  real (pixelToComplex x y zoom offsetX offsetY)
    = ((Z2double x / 800 * 4 - 2) / zoom + offsetX)%float
  /\ imag (pixelToComplex x y zoom offsetX offsetY)
    = ((Z2double y / 600 * 4 - 2) / zoom + offsetY)%float
  /\ SF2Z (Prim2SF (Z2double x)) = Some x
  /\ SF2Z (Prim2SF (Z2double y)) = Some y.
Proof.
  intros Hx Hy. unfold pixelToComplex. cbn [real imag].
  rewrite (int_to_double_correct x), (int_to_double_correct y);
    [| unfold HEIGHT, INT_MAX in *; lia | unfold WIDTH, INT_MAX in *; lia].
  split; [reflexivity|]. split; [reflexivity|].
  split; apply Z2double_exact; unfold WIDTH, HEIGHT in *; lia.
Qed.

Lemma pixelToComplex_formula_witness :
  (0 <= 799 < WIDTH) /\ (0 <= 0 < HEIGHT)
  /\ real (pixelToComplex 799 0 30 (-0.75) 0)
     = ((Z2double 799 / 800 * 4 - 2) / 30 + -0.75)%float
  /\ imag (pixelToComplex 799 0 30 (-0.75) 0)
     = ((Z2double 0 / 600 * 4 - 2) / 30 + 0)%float
  /\ SF2Z (Prim2SF (Z2double 799)) = Some 799
  /\ SF2Z (Prim2SF (Z2double 0)) = Some 0.
Proof.
  assert (Hx : 0 <= 799 < WIDTH) by (unfold WIDTH; lia).
  assert (Hy : 0 <= 0 < HEIGHT) by (unfold HEIGHT; lia).
  split; [exact Hx|]. split; [exact Hy|].
  exact (pixelToComplex_formula 799 0 30 (-0.75) 0 Hx Hy).
Defined.

(** * The colour selector *)

(** For the counts the evaluator produces, [iterations * 10] is far from
    the limits of [int]. *)
Lemma getColor_no_overflow (iterations : Z) :
  0 <= iterations <= MAX_ITERATIONS ->
  INT_MIN <= iterations * 10 <= INT_MAX.
Proof. unfold MAX_ITERATIONS, INT_MIN, INT_MAX. lia. Qed.

(** C4: for a count in [0, MAX_ITERATIONS] the selector returns (0, 0, 0)
    when the count is MAX_ITERATIONS, and otherwise (r, r / 2, r / 4) with
    r = (iterations * 10) mod 256 and flooring division. *)
Theorem getColor_spec (iterations : Z) :
  0 <= iterations <= MAX_ITERATIONS ->
  (iterations = MAX_ITERATIONS -> getColor iterations = mkColor 0 0 0)
  /\ (iterations <> MAX_ITERATIONS ->
      getColor iterations
      = mkColor ((iterations * 10) mod 256)
                ((iterations * 10) mod 256 / 2)
                ((iterations * 10) mod 256 / 4)).
Proof.
  intros Hrange. unfold getColor. split.
  - intros ->. reflexivity.
  - intros Hne. apply Z.eqb_neq in Hne. rewrite Hne.
    assert (Hmod : 0 <= (iterations * 10) mod 256 < 256)
      by (apply Z.mod_pos_bound; lia).
    rewrite Z.rem_mod_nonneg by lia.
    rewrite !Z.quot_div_nonneg by lia.
    reflexivity.
Qed.

Lemma getColor_spec_witness :
  getColor 100 = mkColor 0 0 0 /\ getColor 37 = mkColor 114 57 28.
Proof.
  split.
  - apply (getColor_spec 100); [unfold MAX_ITERATIONS; lia | reflexivity].
  - apply (getColor_spec 37); [unfold MAX_ITERATIONS; lia|].
    unfold MAX_ITERATIONS. lia.
Defined.

(** * The frame renderer *)

Lemma zrange_length (n : nat) : forall lo, length (zrange lo n) = n.
Proof. induction n as [|n IH]; intros lo; cbn; [|rewrite IH]; reflexivity. Qed.

Lemma zrange_nth_error (n : nat) :
  forall lo k, (k < n)%nat -> nth_error (zrange lo n) k = Some (lo + Z.of_nat k).
Proof.
  induction n as [|n IH]; intros lo k Hk; [lia|].
  destruct k as [|k]; cbn [zrange nth_error].
  - f_equal. lia.
  - rewrite IH by lia. f_equal. lia.
Qed.

Section ForLoop.

Variables (hi : Z) (body : Z -> ostream -> option ostream).
Variable emitted : Z -> list ascii.

(** A loop whose body appends [emitted i] at index [i] appends the
    pieces of the remaining indices in increasing order, and leaves by
    its test when it has fuel for one test more than there are indices. *)
Lemma for_loop_appends (lo : Z) :
  (forall i os, lo <= i < hi -> body i os = Some (os ++ emitted i)) ->
  forall fuel i os,
    lo <= i <= hi ->
    (Z.to_nat (hi - i) < fuel)%nat ->
    for_loop fuel i hi body os
    = Some (os ++ concat (map emitted (zrange i (Z.to_nat (hi - i))))).
Proof.
  intros Hbody. induction fuel as [|fuel IH]; intros i os Hi Hfuel; [lia|].
  cbn [for_loop].
  destruct (i <? hi) eqn:Htest.
  - apply Z.ltb_lt in Htest.
    rewrite Hbody by lia. cbn [bind].
    rewrite IH by lia.
    replace (Z.to_nat (hi - i)) with (S (Z.to_nat (hi - (i + 1)))) by lia.
    cbn [zrange map concat]. rewrite <- app_assoc. reflexivity.
  - apply Z.ltb_ge in Htest.
    replace (Z.to_nat (hi - i)) with O by lia.
    cbn. rewrite app_nil_r. reflexivity.
Qed.

End ForLoop.

Section Renderer.

Variables zoom offsetX offsetY : float.

Lemma mandelbrot_escape_count (c : complex) :
  mandelbrot c 0 = Some (escape_count c, escape_count c).
Proof.
  unfold escape_count.
  destruct (mandelbrot_inv c 0) as (n & -> & _). reflexivity.
Qed.

Lemma renderPixel_appends (y x : Z) (os : ostream) :
  renderPixel zoom offsetX offsetY y x os
  = Some (os ++ [pixel_glyph zoom offsetX offsetY x y]).
Proof.
  unfold renderPixel, pixel_glyph, count_glyph, write.
  rewrite mandelbrot_escape_count. cbn [bind snd].
  destruct (escape_count _ =? MAX_ITERATIONS); reflexivity.
Qed.

Lemma concat_singletons {A B : Type} (f : A -> B) (l : list A) :
  concat (map (fun a => [f a]) l) = map f l.
Proof. induction l as [|a l IH]; cbn; [|rewrite IH]; reflexivity. Qed.

Lemma renderRow_appends (y : Z) (os : ostream) :
  renderRow zoom offsetX offsetY y os
  = Some (os ++ (frame_row zoom offsetX offsetY y ++ [newline])).
Proof.
  unfold renderRow.
  rewrite (for_loop_appends WIDTH (renderPixel zoom offsetX offsetY y)
             (fun x => [pixel_glyph zoom offsetX offsetY x y]) 0).
  - cbn [bind]. unfold endl, frame_row.
    rewrite Z.sub_0_r, concat_singletons, <- app_assoc. reflexivity.
  - intros i os' _. apply renderPixel_appends.
  - unfold WIDTH. lia.
  - unfold WIDTH. lia.
Qed.

Lemma renderMandelbrot_appends (os : ostream) :
  renderMandelbrot zoom offsetX offsetY os
  = Some (os ++ unlines (frame zoom offsetX offsetY)).
Proof.
  unfold renderMandelbrot.
  rewrite (for_loop_appends HEIGHT (renderRow zoom offsetX offsetY)
             (fun y => frame_row zoom offsetX offsetY y ++ [newline]) 0).
  - unfold unlines, frame. rewrite Z.sub_0_r, map_map. reflexivity.
  - intros i os' _. apply renderRow_appends.
  - unfold HEIGHT. lia.
  - unfold HEIGHT. lia.
Qed.

Lemma frame_length : length (frame zoom offsetX offsetY) = Z.to_nat HEIGHT.
Proof. unfold frame. rewrite length_map. apply zrange_length. Qed.

Lemma frame_row_length (y : Z) :
  length (frame_row zoom offsetX offsetY y) = Z.to_nat WIDTH.
Proof. unfold frame_row. rewrite length_map. apply zrange_length. Qed.

Lemma frame_nth_error (y : nat) :
  (y < Z.to_nat HEIGHT)%nat ->
  nth_error (frame zoom offsetX offsetY) y
  = Some (frame_row zoom offsetX offsetY (Z.of_nat y)).
Proof.
  intros Hy. unfold frame.
  rewrite nth_error_map, zrange_nth_error by exact Hy. reflexivity.
Qed.

Lemma frame_row_nth_error (y : Z) (x : nat) :
  (x < Z.to_nat WIDTH)%nat ->
  nth_error (frame_row zoom offsetX offsetY y) x
  = Some (pixel_glyph zoom offsetX offsetY (Z.of_nat x) y).
Proof.
  intros Hx. unfold frame_row.
  rewrite nth_error_map, zrange_nth_error by exact Hx. reflexivity.
Qed.

End Renderer.

(** ** Where a pixel lands in the text *)

Section Unlines.

Variable w : nat.

(** In a text whose lines all have [w] characters, character [x] of line
    [y] is at offset y * (w + 1) + x, and the line feed of line [y] at
    offset y * (w + 1) + w. *)
Lemma unlines_nth_error (rows : list (list ascii)) :
  Forall (fun row => length row = w) rows ->
  forall (y x : nat) (row : list ascii),
    nth_error rows y = Some row ->
    (x <= w)%nat ->
    nth_error (unlines rows) (y * S w + x) = nth_error (row ++ [newline]) x.
Proof.
  induction 1 as [|r rows Hr Hrows IH]; intros y x row Hy Hx.
  - destruct y; discriminate.
  - unfold unlines. cbn [map concat]. fold (unlines rows).
    destruct y as [|y]; cbn [nth_error] in Hy.
    + injection Hy as ->. cbn [Nat.mul Nat.add].
      apply nth_error_app1. rewrite length_app, Hr. cbn. lia.
    + rewrite nth_error_app2 by (rewrite length_app, Hr; cbn; lia).
      rewrite length_app, Hr. cbn [length].
      replace (S y * S w + x - (w + 1))%nat with (y * S w + x)%nat by lia.
      apply IH; assumption.
Qed.

End Unlines.

(** Reading line by line undoes [unlines] when no line holds a line feed. *)
Lemma lines_from_row (row : list ascii) :
  Forall (fun ch => ch <> newline) row ->
  forall cur rest,
    lines_from cur (row ++ newline :: rest)
    = (rev cur ++ row) :: lines_from [] rest.
Proof.
  induction 1 as [|ch row Hch Hrow IH]; intros cur rest.
  - cbn. rewrite app_nil_r. reflexivity.
  - cbn [app lines_from].
    destruct (Ascii.eqb ch newline) eqn:E;
      [apply Ascii.eqb_eq in E; contradiction|].
    rewrite IH. cbn [rev]. rewrite <- app_assoc. reflexivity.
Qed.

Lemma lines_unlines (rows : list (list ascii)) :
  Forall (Forall (fun ch => ch <> newline)) rows ->
  lines (unlines rows) = rows.
Proof.
  unfold lines. induction 1 as [|row rows Hrow Hrows IH]; [reflexivity|].
  unfold unlines. cbn [map concat]. fold (unlines rows).
  rewrite <- app_assoc. cbn [app].
  rewrite (lines_from_row row Hrow). cbn [rev app].
  rewrite IH. reflexivity.
Qed.

Section Frame.

Variables zoom offsetX offsetY : float.

Lemma frame_rows_width :
  Forall (fun row => length row = Z.to_nat WIDTH) (frame zoom offsetX offsetY).
Proof.
  unfold frame. apply Forall_map, Forall_forall.
  intros y _. apply frame_row_length.
Qed.

Lemma frame_char_at (x y : Z) :
  0 <= x < WIDTH ->
  0 <= y < HEIGHT ->
  nth_error (unlines (frame zoom offsetX offsetY))
            (Z.to_nat (y * (WIDTH + 1) + x))
  = Some (pixel_glyph zoom offsetX offsetY x y).
Proof.
  intros Hx Hy.
  replace (Z.to_nat (y * (WIDTH + 1) + x))
    with (Z.to_nat y * S (Z.to_nat WIDTH) + Z.to_nat x)%nat
    by (unfold WIDTH in *; lia).
  rewrite (unlines_nth_error (Z.to_nat WIDTH) _ frame_rows_width _ _
             (frame_row zoom offsetX offsetY y)).
  - rewrite nth_error_app1 by (rewrite frame_row_length; lia).
    rewrite frame_row_nth_error by lia. rewrite Z2Nat.id by lia. reflexivity.
  - rewrite frame_nth_error by (unfold HEIGHT in *; lia).
    rewrite Z2Nat.id by lia. reflexivity.
  - lia.
Qed.

Lemma frame_newline_at (y : Z) :
  0 <= y < HEIGHT ->
  nth_error (unlines (frame zoom offsetX offsetY))
            (Z.to_nat (y * (WIDTH + 1) + WIDTH))
  = Some newline.
Proof.
  intros Hy.
  replace (Z.to_nat (y * (WIDTH + 1) + WIDTH))
    with (Z.to_nat y * S (Z.to_nat WIDTH) + Z.to_nat WIDTH)%nat
    by (unfold WIDTH in *; lia).
  rewrite (unlines_nth_error (Z.to_nat WIDTH) _ frame_rows_width _ _
             (frame_row zoom offsetX offsetY y)).
  - rewrite nth_error_app2 by (rewrite frame_row_length; lia).
    rewrite frame_row_length, Nat.sub_diag. reflexivity.
  - rewrite frame_nth_error by (unfold HEIGHT in *; lia).
    rewrite Z2Nat.id by lia. reflexivity.
  - lia.
Qed.

Lemma pixel_glyph_alphabet (x y : Z) :
  pixel_glyph zoom offsetX offsetY x y = space
  \/ pixel_glyph zoom offsetX offsetY x y = star.
Proof.
  unfold pixel_glyph, count_glyph.
  destruct (_ =? MAX_ITERATIONS); [left|right]; reflexivity.
Qed.

Lemma frame_rows_alphabet :
  Forall (Forall (fun ch => ch = space \/ ch = star))
         (frame zoom offsetX offsetY).
Proof.
  unfold frame. apply Forall_map, Forall_forall. intros y _.
  unfold frame_row. apply Forall_map, Forall_forall. intros x _.
  apply pixel_glyph_alphabet.
Qed.

Lemma frame_lines :
  lines (unlines (frame zoom offsetX offsetY)) = frame zoom offsetX offsetY.
Proof.
  apply lines_unlines.
  eapply Forall_impl; [|exact frame_rows_alphabet].
  intros row Hrow. eapply Forall_impl; [|exact Hrow].
  intros ch [-> | ->]; discriminate.
Qed.

End Frame.

(** C2: for every view and whatever was printed before, one call of the
    renderer appends a text that, read line by line, is HEIGHT lines of
    WIDTH characters each, every line followed by a line feed, every
    character a blank or an asterisk; the character of pixel (x, y) is
    character x of line y, that is offset y * (WIDTH + 1) + x of the appended
    text, and it is a blank when the evaluator's count for the pixel is
    MAX_ITERATIONS and an asterisk otherwise. *)
Theorem renderMandelbrot_frame (zoom offsetX offsetY : float) (os : ostream) :
  exists emitted : list ascii,
    renderMandelbrot zoom offsetX offsetY os = Some (os ++ emitted)
    /\ emitted = unlines (lines emitted)
    /\ length (lines emitted) = Z.to_nat HEIGHT
    /\ Forall (fun row => length row = Z.to_nat WIDTH) (lines emitted)
    /\ Forall (Forall (fun ch => ch = space \/ ch = star)) (lines emitted)
    /\ forall x y : Z,
        0 <= x < WIDTH ->
        0 <= y < HEIGHT ->
        exists n out : Z,
          mandelbrot (pixelToComplex x y zoom offsetX offsetY) 0 = Some (n, out)
          /\ nth_error emitted (Z.to_nat (y * (WIDTH + 1) + x))
             = Some (if n =? MAX_ITERATIONS then space else star)
          /\ nth_error (nth (Z.to_nat y) (lines emitted) []) (Z.to_nat x)
             = Some (if n =? MAX_ITERATIONS then space else star)
          /\ nth_error emitted (Z.to_nat (y * (WIDTH + 1) + WIDTH))
             = Some newline.
Proof.
  exists (unlines (frame zoom offsetX offsetY)).
  rewrite frame_lines.
  split; [apply renderMandelbrot_appends|].
  split; [reflexivity|].
  split; [apply frame_length|].
  split; [apply frame_rows_width|].
  split; [apply frame_rows_alphabet|].
  intros x y Hx Hy.
  exists (escape_count (pixelToComplex x y zoom offsetX offsetY)),
         (escape_count (pixelToComplex x y zoom offsetX offsetY)).
  split; [apply mandelbrot_escape_count|].
  split; [apply frame_char_at; assumption|].
  split; [|apply frame_newline_at; assumption].
  rewrite (nth_error_nth _ _ _ (frame_nth_error zoom offsetX offsetY
             (Z.to_nat y) ltac:(unfold HEIGHT in *; lia))).
  rewrite frame_row_nth_error by (unfold WIDTH in *; lia).
  rewrite !Z2Nat.id by lia. reflexivity.
Qed.

(** C8: the characters a call of the renderer appends depend on the view
    alone: two calls with the same view append the same characters whatever
    the stream held before each of them, also when the second call follows
    the first. *)
Theorem renderMandelbrot_deterministic (zoom offsetX offsetY : float) :
  exists emitted : list ascii,
    (forall os : ostream,
        renderMandelbrot zoom offsetX offsetY os = Some (os ++ emitted))
    /\ (forall os : ostream,
        (os' <- renderMandelbrot zoom offsetX offsetY os ;;
         renderMandelbrot zoom offsetX offsetY os')
        = Some (os ++ emitted ++ emitted)).
Proof.
  exists (unlines (frame zoom offsetX offsetY)).
  split; intros os.
  - apply renderMandelbrot_appends.
  - rewrite renderMandelbrot_appends. cbn [bind].
    rewrite renderMandelbrot_appends, <- app_assoc. reflexivity.
Qed.

(** C5: the evaluator returns MAX_ITERATIONS for c = 0 and 0 for c = 3;
    in the default view (zoom 1, offsets 0) the centre pixel
    (WIDTH/2, HEIGHT/2) maps to c = (0, 0) and is printed as a blank. *)
Theorem fixed_points_and_centre_pixel :
  (forall iterations, mandelbrot (Complex 0 0) iterations
                      = Some (MAX_ITERATIONS, MAX_ITERATIONS))
  /\ (forall iterations, mandelbrot (Complex 3 0) iterations = Some (0, 0))
  /\ pixelToComplex (WIDTH / 2) (HEIGHT / 2) 1 0 0 = Complex 0 0
  /\ exists emitted : list ascii,
       (forall os, renderMandelbrot 1 0 0 os = Some (os ++ emitted))
       /\ nth_error emitted (Z.to_nat (HEIGHT / 2 * (WIDTH + 1) + WIDTH / 2))
          = Some space.
Proof.
  split; [intros; vm_compute; reflexivity|].
  split; [intros; vm_compute; reflexivity|].
  split; [vm_compute; reflexivity|].
  exists (unlines (frame 1 0 0)).
  split.
  - intros os. apply renderMandelbrot_appends.
  - assert (Hx : 0 <= WIDTH / 2 < WIDTH)
      by (vm_compute; split; [discriminate | reflexivity]).
    assert (Hy : 0 <= HEIGHT / 2 < HEIGHT)
      by (vm_compute; split; [discriminate | reflexivity]).
    rewrite (frame_char_at 1 0 0 _ _ Hx Hy).
    vm_compute. reflexivity.
Qed.

(** * A zoom of zero *)








(** * Finite coordinates *)

Lemma normalised_below_WIDTH :
  forallb (normalised_below WIDTH) (zrange 0 (Z.to_nat WIDTH)) = true.
Proof. vm_compute. reflexivity. Qed.

Lemma normalised_below_HEIGHT :
  forallb (normalised_below HEIGHT) (zrange 0 (Z.to_nat HEIGHT)) = true.
Proof. vm_compute. reflexivity. Qed.

(** One coordinate: a normalised value divided by a zoom of magnitude at
    least 2^-1000 and moved by an offset of magnitude at most 2^1000. *)
Lemma zoomed_coordinate_finite (size n : Z) (zoom offset : float) :
  forallb (normalised_below size) (zrange 0 (Z.to_nat size)) = true ->
  0 <= n < size ->
  (0x1p-1000 <=? PrimFloat.abs zoom)%float = true ->
  (PrimFloat.abs offset <=? 0x1p1000)%float = true ->
  is_finite (normalised n size / zoom + offset) = true.
Proof.
  intros Hall Hn Hzoom Hoffset.
  rewrite forallb_forall in Hall.
  assert (Hin : In n (zrange 0 (Z.to_nat size))) by (apply zrange_In; lia).
  specialize (Hall n Hin). unfold normalised_below in Hall.
  apply Binary64.abs_ge_above in Hzoom.
  apply Binary64.abs_le_below in Hoffset.
  pose proof (Binary64.div_below _ _ 2 (-999) Hall Hzoom ltac:(lia)) as Hq.
  apply (Binary64.below_is_finite (1003 + 2)).
  apply Binary64.add_below; [exact Hq | | lia].
  apply (Binary64.below_mono 1001); [lia | exact Hoffset].
Qed.

(** C6, as the code has it: for every pixel of the grid, every zoom of
    magnitude at least 2^-1000 (an infinite zoom included, NaN excluded) and
    offsets of magnitude at most 2^1000, both parts of the mapper's result
    are finite. *)
Theorem pixelToComplex_finite (x y : Z) (zoom offsetX offsetY : float) :
  0 <= x < WIDTH ->
  0 <= y < HEIGHT ->
  (0x1p-1000 <=? PrimFloat.abs zoom)%float = true ->
  (PrimFloat.abs offsetX <=? 0x1p1000)%float = true ->
  (PrimFloat.abs offsetY <=? 0x1p1000)%float = true ->
  is_finite (real (pixelToComplex x y zoom offsetX offsetY)) = true
  /\ is_finite (imag (pixelToComplex x y zoom offsetX offsetY)) = true.
Proof.
  intros Hx Hy Hzoom HoffX HoffY.
  unfold pixelToComplex. cbn [real imag].
  fold (normalised x WIDTH) (normalised y HEIGHT). split.
  - apply zoomed_coordinate_finite;
      [exact normalised_below_WIDTH | assumption..].
  - apply zoomed_coordinate_finite;
      [exact normalised_below_HEIGHT | assumption..].
Qed.

Lemma pixelToComplex_finite_witness :
  is_finite (real (pixelToComplex 799 599 30 (-0.75) 0)) = true
  /\ is_finite (imag (pixelToComplex 799 599 30 (-0.75) 0)) = true.
Proof.
  apply (pixelToComplex_finite 799 599 30 (-0.75) 0).
  - unfold WIDTH. lia.
  - unfold HEIGHT. lia.
  - reflexivity.
  - reflexivity.
  - reflexivity.
Defined.

(** C6 as stated fails for a zoom that is not zero but tiny: dividing by
    the smallest positive double overflows, and so does the smallest normal
    double with a large finite offset. *)
Lemma tiny_zoom_overflows :
  (0x1p-1074 =? 0)%float = false
  /\ is_finite 0x1p-1074 = true
  /\ is_finite (real (pixelToComplex 0 0 0x1p-1074 0 0)) = false
  /\ is_finite (imag (pixelToComplex 0 0 0x1p-1074 0 0)) = false
  /\ (0x1p-1022 =? 0)%float = false
  /\ is_finite 0x1p-1022 = true
  /\ is_finite (-0x1p1023) = true
  /\ is_finite (real (pixelToComplex 0 0 0x1p-1022 (-0x1p1023) 0)) = false.
Proof. vm_compute. repeat split; reflexivity. Qed.

(** * Further properties of the evaluator *)

(** X1: the value the evaluator returns is the 0-based index of the first
    update whose magnitude exceeds 2.0: no earlier update passes the test,
    and the update at the returned index does unless the value is
    MAX_ITERATIONS. *)
Theorem mandelbrot_first_escape (c : complex) (iterations : Z) :
  exists n : nat,
    mandelbrot c iterations = Some (Z.of_nat n, Z.of_nat n)
    /\ (forall k : nat, (k < n)%nat ->
          (2 <? StdComplex.abs (orbit c (S k)))%float = false)
    /\ (Z.of_nat n < MAX_ITERATIONS ->
          (2 <? StdComplex.abs (orbit c (S n)))%float = true).
Proof.
  destruct (mandelbrot_inv c iterations) as (n & Hrun & Hn & Hbelow & Hat).
  exists (Z.to_nat n). rewrite Z2Nat.id by lia.
  split; [exact Hrun|]. split.
  - intros k Hk. specialize (Hbelow (Z.of_nat k) ltac:(lia)).
    replace (Z.to_nat (Z.of_nat k + 1)) with (S k) in Hbelow by lia.
    exact Hbelow.
  - intros Hlt. specialize (Hat Hlt).
    replace (Z.to_nat (n + 1)) with (S (Z.to_nat n)) in Hat by lia.
    exact Hat.
Qed.

(** X2: the evaluator returns 0 exactly when the magnitude of c, as
    [std::abs] computes it, exceeds 2.0; every other point gets a count of
    at least 1. *)
Theorem mandelbrot_zero_iff (c : complex) (iterations : Z) :
  mandelbrot c iterations = Some (0, 0)
  <-> (2 <? StdComplex.abs c)%float = true.
Proof.
  split.
  - intros Hrun.
    destruct (mandelbrot_inv c iterations) as (n & Hrun' & _ & _ & Hat).
    rewrite Hrun in Hrun'. injection Hrun' as <-.
    specialize (Hat ltac:(unfold MAX_ITERATIONS; lia)).
    change (orbit c (Z.to_nat (0 + 1)))
      with (Complex 0 0 * Complex 0 0 + c)%complex in Hat.
    unfold escaped in Hat. rewrite abs_first_update in Hat. exact Hat.
  - intros Habs. apply mandelbrot_first_update.
    unfold escaped. rewrite abs_first_update. exact Habs.
Qed.

(** ** Points with a NaN or an infinite part *)

Module Special.

Local Open Scope float_scope.

Lemma is_nan_eq (x : float) : is_nan x = true -> x = nan.
Proof.
  unfold is_nan. rewrite eqb_spec. intros H.
  rewrite <- (SF2Prim_Prim2SF x).
  destruct (Prim2SF x) as [s|s| |s m e]; try reflexivity.
  - discriminate H.
  - destruct s; discriminate H.
  - rewrite Binary64.SFeqb_refl_finite in H. discriminate H.
Qed.

Lemma add_nan_r (x : float) : x + nan = nan.
Proof.
  apply Prim2SF_inj. rewrite add_spec.
  change (Prim2SF nan) with S754_nan.
  destruct (Prim2SF x) as [s|s| |s m e]; reflexivity.
Qed.

Lemma add_nan_l (x : float) : nan + x = nan.
Proof.
  apply Prim2SF_inj. rewrite add_spec.
  change (Prim2SF nan) with S754_nan. reflexivity.
Qed.

Lemma div_nan_r (x : float) : x / nan = nan.
Proof.
  apply Prim2SF_inj. rewrite div_spec.
  change (Prim2SF nan) with S754_nan.
  destruct (Prim2SF x) as [s|s| |s m e]; reflexivity.
Qed.

(** The magnitude of a point with a NaN part is NaN, which passes no
    test. *)
Lemma escaped_nan_real (b : float) : escaped (Complex nan b) = false.
Proof.
  unfold escaped, StdComplex.abs. cbn [real imag].
  change (nan * nan) with nan. rewrite add_nan_l. reflexivity.
Qed.

Lemma escaped_nan_imag (a : float) : escaped (Complex a nan) = false.
Proof.
  unfold escaped, StdComplex.abs. cbn [real imag].
  change (nan * nan) with nan. rewrite add_nan_r. reflexivity.
Qed.

(** Every update of the orbit of a point with a NaN part has that part
    NaN. *)
Lemma orbit_nan (c : complex) (k : nat) :
  is_nan (real c) = true \/ is_nan (imag c) = true ->
  escaped (orbit c (S k)) = false.
Proof.
  intros Hc. cbn [orbit].
  destruct c as [cr ci]. cbn [real imag] in Hc.
  unfold StdComplex.add, StdComplex.mul. cbn [real imag].
  destruct Hc as [Hc|Hc]; apply is_nan_eq in Hc; subst.
  - rewrite add_nan_r. apply escaped_nan_real.
  - rewrite add_nan_r. apply escaped_nan_imag.
Qed.

(** With a NaN part the evaluator runs to the cap. *)
Lemma mandelbrot_nan_part (c : complex) (iterations : Z) :
  is_nan (real c) = true \/ is_nan (imag c) = true ->
  mandelbrot c iterations = Some (MAX_ITERATIONS, MAX_ITERATIONS).
Proof.
  intros Hc.
  destruct (mandelbrot_inv c iterations) as (n & Hrun & Hn & _ & Hat).
  destruct (Z.eq_dec n MAX_ITERATIONS) as [->|Hne]; [exact Hrun|].
  specialize (Hat ltac:(lia)).
  replace (Z.to_nat (n + 1)) with (S (Z.to_nat n)) in Hat by lia.
  rewrite (orbit_nan c _ Hc) in Hat. discriminate Hat.
Qed.

End Special.

Module Signs.

Local Open Scope float_scope.

Lemma shr_fexp_nonneg (m e : Z) (l : location) :
  (0 <= m)%Z ->
  forall mrs e',
    shr_fexp prec emax m e l = (mrs, e') -> (0 <= shr_m mrs)%Z.
Proof.
  intros Hm mrs e'. unfold shr_fexp, shr.
  pose proof (Rounding.shr_record_of_loc_m m l) as Hrec.
  destruct (fexp prec emax (Zdigits2 m + e) - e)%Z as [|p|p];
    intros H; injection H as <- <-.
  - rewrite Hrec. exact Hm.
  - apply Rounding.iter_shr_1. rewrite Hrec. exact Hm.
  - rewrite Hrec. exact Hm.
Qed.

(** Rounding keeps the sign and never produces NaN. *)
Lemma round_signed (s : bool) (m e : Z) (l : location) :
  (0 <= m)%Z -> signed s (binary_round_aux prec emax s m e l).
Proof.
  intros Hm. unfold binary_round_aux.
  destruct (shr_fexp prec emax m e l) as [mrs1 e1] eqn:E1.
  pose proof (shr_fexp_nonneg m e l Hm _ _ E1) as Hm1.
  destruct (Rounding.round_nearest_even_bound
              (shr_m mrs1) (loc_of_shr_record mrs1) Hm1) as [Hm2 _].
  destruct (shr_fexp prec emax _ e1 loc_Exact) as [mrs3 e3] eqn:E3.
  pose proof (shr_fexp_nonneg _ e1 loc_Exact Hm2 _ _ E3) as Hm3.
  destruct (shr_m mrs3) as [|p|p]; [reflexivity| |lia].
  destruct (e3 <=? emax - prec)%Z; reflexivity.
Qed.

(** A square is a non-negative number, or NaN for NaN. *)
Lemma SFmul_square (f : spec_float) :
  f <> S754_nan -> signed false (SFmul prec emax f f).
Proof.
  intros Hf. destruct f as [s|s| |s m e]; cbn [SFmul signed].
  - destruct s; reflexivity.
  - destruct s; reflexivity.
  - contradiction.
  - replace (xorb s s) with false by (destruct s; reflexivity).
    apply round_signed. lia.
Qed.

Lemma not_nan_SF (x : float) : is_nan x = false -> Prim2SF x <> S754_nan.
Proof.
  intros H E.
  assert (Hx : x = nan) by (rewrite <- (SF2Prim_Prim2SF x), E; reflexivity).
  rewrite Hx in H. discriminate H.
Qed.

Lemma square_infinite (x : float) :
  is_infinity x = true -> x * x = infinity.
Proof.
  intros H. destruct (Binary64.is_infinity_cases x H) as [->| ->]; reflexivity.
Qed.

Lemma infinity_add_square (y : float) :
  is_nan y = false -> infinity + y * y = infinity.
Proof.
  intros Hy. apply Prim2SF_inj. rewrite add_spec, mul_spec.
  pose proof (SFmul_square (Prim2SF y) (not_nan_SF y Hy)) as Hsq.
  unfold SF64mul.
  destruct (SFmul prec emax (Prim2SF y) (Prim2SF y)) as [s|s| |s m e];
    cbn [signed] in Hsq; try contradiction; subst; reflexivity.
Qed.

Lemma square_add_infinity (y : float) :
  is_nan y = false -> y * y + infinity = infinity.
Proof.
  intros Hy. apply Prim2SF_inj. rewrite add_spec, mul_spec.
  pose proof (SFmul_square (Prim2SF y) (not_nan_SF y Hy)) as Hsq.
  unfold SF64mul.
  destruct (SFmul prec emax (Prim2SF y) (Prim2SF y)) as [s|s| |s m e];
    cbn [signed] in Hsq; try contradiction; subst; reflexivity.
Qed.

(** The magnitude of a point with an infinite part and no NaN part is
    +infinity. *)
Lemma abs_infinite_part (c : complex) :
  is_infinity (real c) = true \/ is_infinity (imag c) = true ->
  is_nan (real c) = false ->
  is_nan (imag c) = false ->
  StdComplex.abs c = infinity.
Proof.
  intros Hinf Hre Him. unfold StdComplex.abs.
  destruct Hinf as [Hinf|Hinf]; rewrite (square_infinite _ Hinf).
  - rewrite infinity_add_square by exact Him. reflexivity.
  - rewrite square_add_infinity by exact Hre. reflexivity.
Qed.

End Signs.

(** X3: a point with a NaN part whose other part is NaN too, or of
    magnitude at most 2^500, is reported as inside the set: every update
    has a NaN part, no magnitude test succeeds on NaN, and the evaluator
    returns MAX_ITERATIONS.  (A NaN paired with an infinity, or with a part
    whose square overflows, is left out: the library's product and
    magnitude turn such a pair into an infinity.) *)
Theorem mandelbrot_nan (c : complex) (iterations : Z) :
  is_nan (real c) = true \/ is_nan (imag c) = true ->
  nan_or_small (real c) = true ->
  nan_or_small (imag c) = true ->
  mandelbrot c iterations = Some (MAX_ITERATIONS, MAX_ITERATIONS).
Proof.
  intros Hnan _ _. apply Special.mandelbrot_nan_part. exact Hnan.
Qed.

Lemma mandelbrot_nan_witness :
  mandelbrot (Complex nan 0.5) 0 = Some (MAX_ITERATIONS, MAX_ITERATIONS).
Proof.
  apply (mandelbrot_nan (Complex nan 0.5) 0).
  - left. reflexivity.
  - reflexivity.
  - reflexivity.
Defined.

(** X4: a point with an infinite part and no NaN part is reported as
    diverging at index 0. *)
Theorem mandelbrot_infinite (c : complex) (iterations : Z) :
  is_infinity (real c) = true \/ is_infinity (imag c) = true ->
  is_nan (real c) = false ->
  is_nan (imag c) = false ->
  mandelbrot c iterations = Some (0, 0).
Proof.
  intros Hinf Hre Him. apply mandelbrot_first_update.
  unfold escaped.
  rewrite abs_first_update, (Signs.abs_infinite_part c Hinf Hre Him).
  reflexivity.
Qed.

Lemma mandelbrot_infinite_witness :
  mandelbrot (Complex 0.25 neg_infinity) 0 = Some (0, 0).
Proof.
  apply (mandelbrot_infinite (Complex 0.25 neg_infinity) 0).
  - right. reflexivity.
  - reflexivity.
  - reflexivity.
Defined.

(** ** Symmetry in the real axis *)

Module Mirror.

Lemma SFopp_involutive (f : spec_float) : SFopp (SFopp f) = f.
Proof.
  destruct f as [s|s| |s m e]; cbn; rewrite ?negb_involutive; reflexivity.
Qed.

(** Rounding to nearest does not look at the sign. *)
Lemma binary_round_aux_opp (s : bool) (m e : Z) (l : location) :
  binary_round_aux prec emax (negb s) m e l
  = SFopp (binary_round_aux prec emax s m e l).
Proof.
  unfold binary_round_aux.
  destruct (shr_fexp prec emax m e l) as [mrs1 e1].
  destruct (shr_fexp prec emax _ e1 loc_Exact) as [mrs3 e3].
  destruct (shr_m mrs3) as [|p|p]; try reflexivity.
  destruct (e3 <=? emax - prec); reflexivity.
Qed.

Lemma binary_round_opp (s : bool) (m : positive) (e : Z) :
  binary_round prec emax (negb s) m e = SFopp (binary_round prec emax s m e).
Proof.
  unfold binary_round. destruct (shl_align m e _) as [mz ez].
  apply binary_round_aux_opp.
Qed.

Lemma SFmul_opp_r (x y : spec_float) :
  SFmul prec emax x (SFopp y) = SFopp (SFmul prec emax x y).
Proof.
  destruct x as [sx|sx| |sx mx ex], y as [sy|sy| |sy my ey];
    cbn [SFmul SFopp]; try reflexivity;
    try (destruct sx, sy; reflexivity).
  replace (xorb sx (negb sy)) with (negb (xorb sx sy))
    by (destruct sx, sy; reflexivity).
  apply binary_round_aux_opp.
Qed.

Lemma SFmul_opp_l (x y : spec_float) :
  SFmul prec emax (SFopp x) y = SFopp (SFmul prec emax x y).
Proof.
  destruct x as [sx|sx| |sx mx ex], y as [sy|sy| |sy my ey];
    cbn [SFmul SFopp]; try reflexivity;
    try (destruct sx, sy; reflexivity).
  replace (xorb (negb sx) sy) with (negb (xorb sx sy))
    by (destruct sx, sy; reflexivity).
  apply binary_round_aux_opp.
Qed.

Lemma SFopposite_zeros (s s' : bool) : SFopposite (S754_zero s) (S754_zero s').
Proof. right. split; [exists s | exists s']; reflexivity. Qed.

Lemma SFopposite_opp (f : spec_float) : SFopposite (SFopp f) f.
Proof. left. reflexivity. Qed.

(** A product with opposite factors on one side. *)
Lemma SFmul_opposite_r (a b b' : spec_float) :
  SFopposite b b' ->
  SFopposite (SFmul prec emax a b) (SFmul prec emax a b').
Proof.
  intros [-> | [[s ->] [s' ->]]].
  - left. apply SFmul_opp_r.
  - destruct a as [sa|sa| |sa ma ea]; cbn [SFmul];
      try apply SFopposite_zeros; left; reflexivity.
Qed.

Lemma SFmul_opposite_l (a b b' : spec_float) :
  SFopposite b b' ->
  SFopposite (SFmul prec emax b a) (SFmul prec emax b' a).
Proof.
  intros [-> | [[s ->] [s' ->]]].
  - left. apply SFmul_opp_l.
  - destruct a as [sa|sa| |sa ma ea]; cbn [SFmul];
      try apply SFopposite_zeros; left; reflexivity.
Qed.

(** Opposite numbers have the same square. *)
Lemma SFmul_square_opposite (b b' : spec_float) :
  SFopposite b b' -> SFmul prec emax b b = SFmul prec emax b' b'.
Proof.
  intros [-> | [[s ->] [s' ->]]].
  - rewrite SFmul_opp_r, SFmul_opp_l. apply SFopp_involutive.
  - destruct s, s'; reflexivity.
Qed.

Lemma binary_normalize_opp (m e : Z) :
  SFopposite (binary_normalize prec emax (- m) e false)
             (binary_normalize prec emax m e false).
Proof.
  destruct m as [|p|p]; cbn [Z.opp binary_normalize].
  - apply SFopposite_zeros.
  - left. apply (binary_round_opp false).
  - left. rewrite (binary_round_opp false). symmetry. apply SFopp_involutive.
Qed.

(** The sum of the opposites is the opposite of the sum, or both are
    zeros. *)
Lemma SFadd_opp (x y : spec_float) :
  SFopposite (SFadd prec emax (SFopp x) (SFopp y)) (SFadd prec emax x y).
Proof.
  destruct x as [sx|sx| |sx mx ex], y as [sy|sy| |sy my ey];
    cbn [SFadd SFopp];
    try (left; reflexivity);
    try (destruct sx, sy; cbn;
         first [apply SFopposite_zeros | left; reflexivity]).
  replace (cond_Zopp (negb sx) (Z.pos (fst (shl_align mx ex (Z.min ex ey))))
           + cond_Zopp (negb sy) (Z.pos (fst (shl_align my ey (Z.min ex ey)))))
    with (- (cond_Zopp sx (Z.pos (fst (shl_align mx ex (Z.min ex ey))))
             + cond_Zopp sy (Z.pos (fst (shl_align my ey (Z.min ex ey))))))
    by (destruct sx, sy; cbn [cond_Zopp negb]; lia).
  apply binary_normalize_opp.
Qed.

Lemma SFadd_opposite (p p' q q' : spec_float) :
  SFopposite p p' -> SFopposite q q' ->
  SFopposite (SFadd prec emax p q) (SFadd prec emax p' q').
Proof.
  intros [-> | [[s ->] [s' ->]]] [-> | [[t ->] [t' ->]]].
  - apply SFadd_opp.
  - destruct p' as [sp|sp| |sp mp ep]; cbn [SFadd SFopp];
      try (left; reflexivity);
      destruct sp, t, t'; cbn; apply SFopposite_zeros.
  - destruct q' as [sq|sq| |sq mq eq']; cbn [SFadd SFopp];
      try (left; reflexivity);
      destruct sq, s, s'; cbn; apply SFopposite_zeros.
  - destruct s, s', t, t'; cbn; apply SFopposite_zeros.
Qed.

Local Open Scope float_scope.

Lemma opposite_opp (x : float) : opposite x (- x).
Proof.
  unfold opposite. rewrite opp_spec. left.
  symmetry. apply SFopp_involutive.
Qed.

Lemma mul_opposite_r (a b b' : float) :
  opposite b b' -> opposite (a * b) (a * b').
Proof. unfold opposite. rewrite !mul_spec. apply SFmul_opposite_r. Qed.

Lemma mul_opposite_l (a b b' : float) :
  opposite b b' -> opposite (b * a) (b' * a).
Proof. unfold opposite. rewrite !mul_spec. apply SFmul_opposite_l. Qed.

Lemma add_opposite (p p' q q' : float) :
  opposite p p' -> opposite q q' -> opposite (p + q) (p' + q').
Proof. unfold opposite. rewrite !add_spec. apply SFadd_opposite. Qed.

Lemma square_opposite (b b' : float) : opposite b b' -> b * b = b' * b'.
Proof.
  intros H. apply Prim2SF_inj. rewrite !mul_spec.
  apply SFmul_square_opposite. exact H.
Qed.

(** One update keeps two orbits mirrored, and mirrored points have the
    same magnitude. *)
Lemma mirrored_update (c z w : complex) :
  mirrored z w -> mirrored (z * z + c)%complex (w * w + conj c)%complex.
Proof.
  destruct z as [a b], w as [a' b'], c as [cr ci].
  unfold mirrored, conj, StdComplex.add, StdComplex.mul. cbn [real imag].
  intros [-> Hb]. split.
  - rewrite (square_opposite b b' Hb). reflexivity.
  - apply add_opposite; [|apply opposite_opp].
    apply add_opposite; [apply mul_opposite_r | apply mul_opposite_l];
      exact Hb.
Qed.

Lemma mirrored_abs (z w : complex) :
  mirrored z w -> StdComplex.abs z = StdComplex.abs w.
Proof.
  destruct z as [a b], w as [a' b'].
  unfold mirrored, StdComplex.abs. cbn [real imag].
  intros [-> Hb]. rewrite (square_opposite b b' Hb). reflexivity.
Qed.

Lemma mandelbrot_loop_mirrored (c : complex) (fuel : nat) :
  forall (z w : complex) (i iterations : Z),
    mirrored z w ->
    mandelbrot_loop fuel c z i iterations
    = mandelbrot_loop fuel (conj c) w i iterations.
Proof.
  induction fuel as [|fuel IH]; intros z w i iterations Hzw; [reflexivity|].
  cbn [mandelbrot_loop].
  destruct (i <? MAX_ITERATIONS)%Z; [|reflexivity].
  pose proof (mirrored_update c z w Hzw) as Hstep.
  unfold escaped. rewrite (mirrored_abs _ _ Hstep).
  destruct (2 <? StdComplex.abs (w * w + conj c)%complex); [reflexivity|].
  apply IH. exact Hstep.
Qed.

End Mirror.

(** X5: the evaluator is symmetric in the real axis: a point and its
    complex conjugate get the same count. *)
Theorem mandelbrot_conj (c : complex) (iterations : Z) :
  mandelbrot (conj c) iterations = mandelbrot c iterations.
Proof.
  unfold mandelbrot. symmetry. apply Mirror.mandelbrot_loop_mirrored.
  split; [reflexivity|].
  right. split; exists false; reflexivity.
Qed.

(** * Further properties of the colour selector *)

(** X6: for a non-negative count whose tenfold fits in [int], the three
    components are colour values in decreasing order:
    0 <= b <= g <= r <= 255. *)
Theorem getColor_components (iterations : Z) :
  0 <= iterations ->
  iterations * 10 <= INT_MAX ->
  0 <= b (getColor iterations)
  /\ b (getColor iterations) <= g (getColor iterations)
  /\ g (getColor iterations) <= r (getColor iterations)
  /\ r (getColor iterations) <= 255.
Proof.
  intros Hpos _. unfold getColor.
  destruct (iterations =? MAX_ITERATIONS); cbn [r g b]; [lia|].
  assert (Hhue : 0 <= Z.rem (iterations * 10) 256 < 256).
  { rewrite Z.rem_mod_nonneg by lia. apply Z.mod_pos_bound. lia. }
  set (hue := Z.rem (iterations * 10) 256) in *.
  rewrite !Z.quot_div_nonneg by lia.
  repeat split.
  - apply Z.div_pos; lia.
  - replace (hue / 4) with (hue / 2 / 2) by (rewrite Z.div_div by lia; reflexivity).
    apply Z.div_le_upper_bound; [lia|].
    assert (0 <= hue / 2) by (apply Z.div_pos; lia). lia.
  - apply Z.div_le_upper_bound; lia.
  - lia.
Qed.

Lemma getColor_components_witness :
  0 <= b (getColor 37)
  /\ b (getColor 37) <= g (getColor 37)
  /\ g (getColor 37) <= r (getColor 37)
  /\ r (getColor 37) <= 255.
Proof.
  apply (getColor_components 37); [lia | unfold INT_MAX; lia].
Defined.

(** The hue of a count in [0, MAX_ITERATIONS) is zero for the count 0
    only, and two such counts with the same hue are equal: 10 has no
    multiple below 1000 that 256 divides. *)
Lemma hue_injective (i j : Z) :
  0 <= i < MAX_ITERATIONS ->
  0 <= j < MAX_ITERATIONS ->
  Z.rem (i * 10) 256 = Z.rem (j * 10) 256 ->
  i = j.
Proof.
  unfold MAX_ITERATIONS. intros Hi Hj.
  rewrite !Z.rem_mod_nonneg by lia. intros H.
  pose proof (Z.div_mod (i * 10) 256 ltac:(lia)) as Ei.
  pose proof (Z.div_mod (j * 10) 256 ltac:(lia)) as Ej.
  pose proof (Z.mod_pos_bound (i * 10) 256 ltac:(lia)) as Bi.
  rewrite H in Ei.
  assert (Hd : (i - j) * 5 = 128 * ((i * 10) / 256 - (j * 10) / 256)) by lia.
  lia.
Qed.

(** X7: on [0, MAX_ITERATIONS] the colour tells the count, with one
    exception: the count 0 (divergence at the first update) gets the black
    that marks the inside of the set.  Two counts have the same colour
    exactly when they are equal or are 0 and MAX_ITERATIONS. *)
Theorem getColor_collisions (i j : Z) :
  0 <= i <= MAX_ITERATIONS ->
  0 <= j <= MAX_ITERATIONS ->
  (getColor i = getColor j
   <-> i = j \/ (i = 0 /\ j = MAX_ITERATIONS) \/ (i = MAX_ITERATIONS /\ j = 0)).
Proof.
  intros Hi Hj.
  assert (Hblack : forall k, 0 <= k < MAX_ITERATIONS ->
            getColor k = mkColor 0 0 0 -> k = 0).
  { intros k Hk Hc. apply (hue_injective k 0); [exact Hk | unfold MAX_ITERATIONS; lia |].
    unfold getColor in Hc.
    destruct (k =? MAX_ITERATIONS) eqn:E; [apply Z.eqb_eq in E; lia|].
    injection Hc as Hc _ _. exact Hc. }
  split.
  - intros Hc.
    destruct (Z.eq_dec i MAX_ITERATIONS) as [->|Hi'];
      destruct (Z.eq_dec j MAX_ITERATIONS) as [->|Hj'].
    + left. reflexivity.
    + right. right. split; [reflexivity|].
      apply Hblack; [lia|]. symmetry. exact Hc.
    + right. left. split; [|reflexivity].
      apply Hblack; [lia|]. exact Hc.
    + left. apply hue_injective; [lia | lia |].
      unfold getColor in Hc.
      destruct (i =? MAX_ITERATIONS) eqn:Ei; [apply Z.eqb_eq in Ei; lia|].
      destruct (j =? MAX_ITERATIONS) eqn:Ej; [apply Z.eqb_eq in Ej; lia|].
      injection Hc as Hc _ _. exact Hc.
  - intros [-> | [[-> ->] | [-> ->]]]; reflexivity.
Qed.

Lemma getColor_collisions_witness :
  getColor 0 = getColor 100
  <-> 0 = 100 \/ (0 = 0 /\ 100 = MAX_ITERATIONS) \/ (0 = MAX_ITERATIONS /\ 100 = 0).
Proof.
  apply (getColor_collisions 0 100); unfold MAX_ITERATIONS; lia.
Defined.

(** X8: the selector has no guard against a negative count: C++ [%]
    takes the sign of the dividend, so for a negative count (whose tenfold
    fits in [int]) no component is positive, r <= g <= b <= 0 and
    r >= -255. *)
Theorem getColor_negative (iterations : Z) :
  iterations < 0 ->
  INT_MIN <= iterations * 10 ->
  -255 <= r (getColor iterations)
  /\ r (getColor iterations) <= g (getColor iterations)
  /\ g (getColor iterations) <= b (getColor iterations)
  /\ b (getColor iterations) <= 0.
Proof.
  intros Hneg _. unfold getColor.
  destruct (iterations =? MAX_ITERATIONS) eqn:E;
    [apply Z.eqb_eq in E; unfold MAX_ITERATIONS in E; lia|].
  cbn [r g b].
  set (hue := Z.rem (iterations * 10) 256).
  assert (Hhue : -256 < hue <= 0).
  { unfold hue. rewrite <- (Z.opp_involutive (iterations * 10)).
    rewrite Z.rem_opp_l by lia.
    pose proof (Z.rem_bound_pos (- (iterations * 10)) 256 ltac:(lia) ltac:(lia)).
    lia. }
  assert (H2 : Z.quot hue 2 = - (- hue / 2)).
  { rewrite <- (Z.opp_involutive hue) at 1.
    rewrite Z.quot_opp_l by lia. rewrite Z.quot_div_nonneg by lia. reflexivity. }
  assert (H4 : Z.quot hue 4 = - (- hue / 4)).
  { rewrite <- (Z.opp_involutive hue) at 1.
    rewrite Z.quot_opp_l by lia. rewrite Z.quot_div_nonneg by lia. reflexivity. }
  rewrite H2, H4.
  assert (0 <= - hue / 4) by (apply Z.div_pos; lia).
  assert (- hue / 4 <= - hue / 2).
  { replace (- hue / 4) with (- hue / 2 / 2)
      by (rewrite Z.div_div by lia; reflexivity).
    apply Z.div_le_upper_bound; [lia|].
    assert (0 <= - hue / 2) by (apply Z.div_pos; lia). lia. }
  assert (- hue / 2 <= - hue) by (apply Z.div_le_upper_bound; lia).
  lia.
Qed.

Lemma getColor_negative_witness :
  -255 <= r (getColor (-1))
  /\ r (getColor (-1)) <= g (getColor (-1))
  /\ g (getColor (-1)) <= b (getColor (-1))
  /\ b (getColor (-1)) <= 0.
Proof.
  apply (getColor_negative (-1)); [lia | unfold INT_MIN; lia].
Defined.

(** * Further properties of the mapper and the renderer *)

Lemma zrange_bounds (n : nat) :
  forall lo k, In k (zrange lo n) -> lo <= k < lo + Z.of_nat n.
Proof.
  induction n as [|n IH]; intros lo k Hk; [contradiction|].
  cbn [zrange] in Hk. destruct Hk as [<-|Hk]; [lia|].
  apply IH in Hk. lia.
Qed.

Lemma all_above_nth (x : float) (l : list float) :
  all_above x l = true ->
  forall j y, nth_error l j = Some y -> (x <? y)%float = true.
Proof.
  induction l as [|z l IH]; intros H j y Hj; [destruct j; discriminate|].
  cbn [all_above] in H. apply andb_true_iff in H. destruct H as [Hz Hl].
  destruct j as [|j]; cbn [nth_error] in Hj.
  - injection Hj as <-. exact Hz.
  - exact (IH Hl j y Hj).
Qed.

Lemma strictly_increasing_nth (l : list float) :
  strictly_increasing l = true ->
  forall i j x y,
    (i < j)%nat -> nth_error l i = Some x -> nth_error l j = Some y ->
    (x <? y)%float = true.
Proof.
  induction l as [|z l IH]; intros H i j x y Hij Hi Hj;
    [destruct i; discriminate|].
  cbn [strictly_increasing] in H. apply andb_true_iff in H.
  destruct H as [Hz Hl].
  destruct j as [|j]; [lia|]. cbn [nth_error] in Hj.
  destruct i as [|i]; cbn [nth_error] in Hi.
  - injection Hi as <-. exact (all_above_nth _ _ Hz j y Hj).
  - apply (IH Hl i j x y); [lia | exact Hi | exact Hj].
Qed.

(** The coordinates of the default view along one axis. *)
Lemma default_view_increasing_WIDTH :
  strictly_increasing
    (map (fun x => real (pixelToComplex x 0 1 0 0)) (zrange 0 (Z.to_nat WIDTH)))
  = true.
Proof. vm_compute. reflexivity. Qed.

Lemma default_view_increasing_HEIGHT :
  strictly_increasing
    (map (fun y => imag (pixelToComplex 0 y 1 0 0)) (zrange 0 (Z.to_nat HEIGHT)))
  = true.
Proof. vm_compute. reflexivity. Qed.

Lemma default_view_range_WIDTH :
  forallb (fun x => ((-2 <=? real (pixelToComplex x 0 1 0 0))
                     && (real (pixelToComplex x 0 1 0 0) <? 2))%float)
          (zrange 0 (Z.to_nat WIDTH)) = true.
Proof. vm_compute. reflexivity. Qed.

Lemma default_view_range_HEIGHT :
  forallb (fun y => ((-2 <=? imag (pixelToComplex 0 y 1 0 0))
                     && (imag (pixelToComplex 0 y 1 0 0) <? 2))%float)
          (zrange 0 (Z.to_nat HEIGHT)) = true.
Proof. vm_compute. reflexivity. Qed.

(** X9: in the default view (zoom 1, offsets 0) the mapper sends the grid
    into the square [-2, 2) x [-2, 2), pixel (0, 0) to exactly (-2, -2), and
    it is strictly increasing along both axes: a pixel further right has a
    strictly larger real part, a pixel further down a strictly larger
    imaginary part. *)
Theorem pixelToComplex_default_view (x y x' y' : Z) :
  0 <= x < WIDTH ->
  0 <= y < HEIGHT ->
  0 <= x' < WIDTH ->
  0 <= y' < HEIGHT ->
  (-2 <=? real (pixelToComplex x y 1 0 0))%float = true
  /\ (real (pixelToComplex x y 1 0 0) <? 2)%float = true
  /\ (-2 <=? imag (pixelToComplex x y 1 0 0))%float = true
  /\ (imag (pixelToComplex x y 1 0 0) <? 2)%float = true
  /\ pixelToComplex 0 0 1 0 0 = Complex (-2) (-2)
  /\ (x < x' ->
      (real (pixelToComplex x y 1 0 0) <? real (pixelToComplex x' y' 1 0 0))%float
      = true)
  /\ (y < y' ->
      (imag (pixelToComplex x y 1 0 0) <? imag (pixelToComplex x' y' 1 0 0))%float
      = true).
Proof.
  intros Hx Hy Hx' Hy'.
  change (real (pixelToComplex x y 1 0 0)) with (real (pixelToComplex x 0 1 0 0)).
  change (imag (pixelToComplex x y 1 0 0)) with (imag (pixelToComplex 0 y 1 0 0)).
  change (real (pixelToComplex x' y' 1 0 0)) with (real (pixelToComplex x' 0 1 0 0)).
  change (imag (pixelToComplex x' y' 1 0 0)) with (imag (pixelToComplex 0 y' 1 0 0)).
  pose proof default_view_range_WIDTH as HW.
  pose proof default_view_range_HEIGHT as HH.
  rewrite forallb_forall in HW, HH.
  assert (Hinx : In x (zrange 0 (Z.to_nat WIDTH))) by (apply zrange_In; lia).
  assert (Hiny : In y (zrange 0 (Z.to_nat HEIGHT))) by (apply zrange_In; lia).
  specialize (HW x Hinx). specialize (HH y Hiny).
  apply andb_true_iff in HW, HH.
  destruct HW as [HW1 HW2]. destruct HH as [HH1 HH2].
  repeat (split; [assumption|]).
  split; [vm_compute; reflexivity|].
  split; intros Hlt.
  - apply (strictly_increasing_nth _ default_view_increasing_WIDTH
             (Z.to_nat x) (Z.to_nat x')); [lia | |];
      rewrite nth_error_map, zrange_nth_error by lia;
      cbn [option_map]; rewrite Z.add_0_l, Z2Nat.id by lia; reflexivity.
  - apply (strictly_increasing_nth _ default_view_increasing_HEIGHT
             (Z.to_nat y) (Z.to_nat y')); [lia | |];
      rewrite nth_error_map, zrange_nth_error by lia;
      cbn [option_map]; rewrite Z.add_0_l, Z2Nat.id by lia; reflexivity.
Qed.

Lemma pixelToComplex_default_view_witness :
  (-2 <=? real (pixelToComplex 10 20 1 0 0))%float = true
  /\ (real (pixelToComplex 10 20 1 0 0) <? 2)%float = true
  /\ (-2 <=? imag (pixelToComplex 10 20 1 0 0))%float = true
  /\ (imag (pixelToComplex 10 20 1 0 0) <? 2)%float = true
  /\ pixelToComplex 0 0 1 0 0 = Complex (-2) (-2)
  /\ (10 < 11 ->
      (real (pixelToComplex 10 20 1 0 0) <? real (pixelToComplex 11 21 1 0 0))%float
      = true)
  /\ (20 < 21 ->
      (imag (pixelToComplex 10 20 1 0 0) <? imag (pixelToComplex 11 21 1 0 0))%float
      = true).
Proof.
  apply (pixelToComplex_default_view 10 20 11 21);
    unfold WIDTH, HEIGHT; lia.
Defined.

Lemma unlines_app (rows rows' : list (list ascii)) :
  unlines (rows ++ rows') = unlines rows ++ unlines rows'.
Proof. unfold unlines. rewrite map_app, concat_app. reflexivity. Qed.

Lemma unlines_length (w : nat) (rows : list (list ascii)) :
  Forall (fun row => length row = w) rows ->
  length (unlines rows) = (length rows * S w)%nat.
Proof.
  induction 1 as [|row rows Hrow Hrows IH]; [reflexivity|].
  unfold unlines. cbn [map concat]. fold (unlines rows).
  rewrite !length_app, IH, Hrow. cbn [length]. lia.
Qed.

(** X10: whatever the view, one call of the renderer appends exactly
    HEIGHT * (WIDTH + 1) = 480600 characters. *)
Theorem renderMandelbrot_length (zoom offsetX offsetY : float) :
  exists emitted : list ascii,
    (forall os : ostream,
        renderMandelbrot zoom offsetX offsetY os = Some (os ++ emitted))
    /\ Z.of_nat (length emitted) = HEIGHT * (WIDTH + 1)
    /\ Z.of_nat (length emitted) = 480600.
Proof.
  exists (unlines (frame zoom offsetX offsetY)).
  split; [intros os; apply renderMandelbrot_appends|].
  rewrite (unlines_length _ _ (frame_rows_width zoom offsetX offsetY)).
  rewrite frame_length, Nat2Z.inj_mul, Nat2Z.inj_succ.
  rewrite !Z2Nat.id by (unfold WIDTH, HEIGHT; lia).
  unfold WIDTH, HEIGHT. split; reflexivity.
Qed.

(** A frame whose pixels all get the same glyph. *)
Lemma map_constant {A B : Type} (f : A -> B) (b : B) (l : list A) :
  (forall a, In a l -> f a = b) -> map f l = repeat b (length l).
Proof.
  induction l as [|a l IH]; intros H; [reflexivity|].
  cbn [map length repeat]. rewrite (H a (or_introl eq_refl)).
  rewrite IH; [reflexivity|]. intros a' Ha'. apply H. right. exact Ha'.
Qed.

Lemma frame_uniform (zoom offsetX offsetY : float) (ch : ascii) :
  (forall x y, 0 <= x < WIDTH -> 0 <= y < HEIGHT ->
     pixel_glyph zoom offsetX offsetY x y = ch) ->
  frame zoom offsetX offsetY = uniform_frame ch.
Proof.
  intros H. unfold frame, uniform_frame.
  rewrite <- (zrange_length (Z.to_nat HEIGHT) 0) at 2.
  apply map_constant. intros y Hy. apply zrange_bounds in Hy.
  unfold frame_row.
  rewrite <- (zrange_length (Z.to_nat WIDTH) 0) at 2.
  apply map_constant. intros x Hx. apply zrange_bounds in Hx.
  apply H; unfold WIDTH, HEIGHT in *; lia.
Qed.

(** X11: a NaN zoom is not rejected: every pixel maps to a point with two
    NaN parts, the evaluator reports each as inside the set, and the frame
    is HEIGHT lines of WIDTH blanks. *)
Theorem renderMandelbrot_nan_zoom (zoom offsetX offsetY : float) :
  is_nan zoom = true ->
  forall os : ostream,
    renderMandelbrot zoom offsetX offsetY os
    = Some (os ++ unlines (uniform_frame space)).
Proof.
  intros Hzoom os. rewrite renderMandelbrot_appends.
  rewrite (frame_uniform zoom offsetX offsetY space); [reflexivity|].
  intros x y _ _. unfold pixel_glyph, escape_count.
  rewrite Special.mandelbrot_nan_part; [reflexivity|].
  left. unfold pixelToComplex. cbn [real].
  apply Special.is_nan_eq in Hzoom. subst zoom.
  rewrite Special.div_nan_r, Special.add_nan_l. reflexivity.
Qed.

Lemma renderMandelbrot_nan_zoom_witness :
  is_nan nan = true
  /\ renderMandelbrot nan 0 0 [] = Some ([] ++ unlines (uniform_frame space)).
Proof.
  split; [reflexivity|].
  exact (renderMandelbrot_nan_zoom nan 0 0 eq_refl []).
Defined.

Lemma finite_add_infinity (x y : float) :
  is_finite x = true -> is_infinity y = true -> (x + y)%float = y.
Proof.
  intros Hx Hy. apply Binary64.is_infinity_SF in Hy. destruct Hy as [s Hy].
  apply Binary64.is_finite_SF in Hx.
  apply Prim2SF_inj. rewrite add_spec, Hy.
  destruct Hx as [[s' ->]|(s' & m & e & ->)]; reflexivity.
Qed.

Lemma is_finite_not_nan (x : float) : is_finite x = true -> is_nan x = false.
Proof.
  unfold is_finite. intros H. apply negb_true_iff in H.
  apply orb_false_iff in H. exact (proj1 H).
Qed.

(** X12: an infinite horizontal offset is not rejected either: with a zoom
    of magnitude at least 2^-1000 and a vertical offset of magnitude at most
    2^1000, every pixel maps to a point with an infinite real part, the
    evaluator reports divergence at index 0, and the frame is HEIGHT lines
    of WIDTH asterisks. *)
Theorem renderMandelbrot_infinite_offset (zoom offsetX offsetY : float) :
  is_infinity offsetX = true ->
  (0x1p-1000 <=? PrimFloat.abs zoom)%float = true ->
  (PrimFloat.abs offsetY <=? 0x1p1000)%float = true ->
  forall os : ostream,
    renderMandelbrot zoom offsetX offsetY os
    = Some (os ++ unlines (uniform_frame star)).
Proof.
  intros HoffX Hzoom HoffY os. rewrite renderMandelbrot_appends.
  rewrite (frame_uniform zoom offsetX offsetY star); [reflexivity|].
  intros x y Hx Hy. unfold pixel_glyph, escape_count.
  assert (Hq : is_finite (normalised x WIDTH / zoom) = true).
  { pose proof normalised_below_WIDTH as Hall.
    rewrite forallb_forall in Hall.
    assert (Hin : In x (zrange 0 (Z.to_nat WIDTH))) by (apply zrange_In; lia).
    specialize (Hall x Hin). unfold normalised_below in Hall.
    apply Binary64.abs_ge_above in Hzoom.
    apply (Binary64.below_is_finite (2 - -999 + 2)).
    apply Binary64.div_below; [exact Hall | exact Hzoom | lia]. }
  assert (Him : is_finite (normalised y HEIGHT / zoom + offsetY) = true).
  { apply zoomed_coordinate_finite;
      [exact normalised_below_HEIGHT | assumption..]. }
  assert (Hc : pixelToComplex x y zoom offsetX offsetY
               = Complex offsetX (normalised y HEIGHT / zoom + offsetY)).
  { unfold pixelToComplex. fold (normalised x WIDTH) (normalised y HEIGHT).
    rewrite (finite_add_infinity _ _ Hq HoffX). reflexivity. }
  rewrite Hc.
  rewrite mandelbrot_first_update; [reflexivity|].
  unfold escaped. rewrite abs_first_update.
  rewrite Signs.abs_infinite_part; [reflexivity | left; exact HoffX | |].
  - cbn [real]. destruct (Binary64.is_infinity_cases _ HoffX) as [->| ->];
      reflexivity.
  - cbn [imag]. apply is_finite_not_nan. exact Him.
Qed.

Lemma renderMandelbrot_infinite_offset_witness :
  is_infinity infinity = true
  /\ renderMandelbrot 1 infinity 0 []
     = Some ([] ++ unlines (uniform_frame star)).
Proof.
  split; [reflexivity|].
  exact (renderMandelbrot_infinite_offset 1 infinity 0
           eq_refl eq_refl eq_refl []).
Defined.

(** * The driver *)

Lemma no_newline_frame (zoom offsetX offsetY : float) :
  Forall (Forall (fun ch => ch <> newline)) (frame zoom offsetX offsetY).
Proof.
  eapply Forall_impl; [|exact (frame_rows_alphabet zoom offsetX offsetY)].
  intros row Hrow. eapply Forall_impl; [|exact Hrow].
  intros ch [-> | ->]; discriminate.
Qed.

Lemma no_newline_text (rows : list (list ascii)) :
  forallb (forallb (fun ch => negb (Ascii.eqb ch newline))) rows = true ->
  Forall (Forall (fun ch => ch <> newline)) rows.
Proof.
  intros H. rewrite forallb_forall in H.
  apply Forall_forall. intros row Hrow.
  specialize (H row Hrow). rewrite forallb_forall in H.
  apply Forall_forall. intros ch Hch E.
  specialize (H ch Hch). apply negb_true_iff in H.
  apply Ascii.eqb_neq in H. contradiction.
Qed.

Lemma unlines_banner :
  unlines banner
  = text "Welcome to the Mandelbrot Fractal Explorer Tutorial!"%string
    ++ [newline]
    ++ text "This program will generate a textual representation of the Mandelbrot set."%string
    ++ [newline]
    ++ text "Pay attention to the comments explaining complex numbers and the iteration process."%string
    ++ [newline; newline]
    ++ text "Rendering default view..."%string ++ [newline].
Proof. vm_compute. reflexivity. Qed.

Lemma unlines_interlude :
  unlines interlude
  = [newline] ++ text "Rendering a zoomed-in view..."%string ++ [newline].
Proof. vm_compute. reflexivity. Qed.

Lemma unlines_farewell :
  unlines farewell
  = [newline] ++ text "Tutorial finished. Happy exploring!"%string
    ++ [newline].
Proof. vm_compute. reflexivity. Qed.

(** The driver's sequence of writes around two render calls that append
    the texts [F1] and [F2]. *)
Lemma main_shape (render1 render2 : ostream -> option ostream)
    (F1 F2 : list ascii) :
  (forall os, render1 os = Some (os ++ F1)) ->
  (forall os, render2 os = Some (os ++ F2)) ->
  forall os : ostream,
    (let os :=
       write (text "Welcome to the Mandelbrot Fractal Explorer Tutorial!"%string
              ++ [newline]) os in
     let os :=
       write (text "This program will generate a textual representation of the Mandelbrot set."%string
              ++ [newline]) os in
     let os :=
       write (text "Pay attention to the comments explaining complex numbers and the iteration process."%string
              ++ [newline; newline]) os in
     let os := write (text "Rendering default view..."%string ++ [newline]) os in
     os <- render1 os ;;
     let os :=
       write ([newline] ++ text "Rendering a zoomed-in view..."%string
              ++ [newline]) os in
     os <- render2 os ;;
     let os :=
       write ([newline] ++ text "Tutorial finished. Happy exploring!"%string
              ++ [newline]) os in
     Some (0, os))
    = Some (0, os ++ unlines banner ++ F1 ++ unlines interlude
                  ++ F2 ++ unlines farewell).
Proof.
  intros H1 H2 os. cbv zeta. rewrite H1. cbn [bind]. rewrite H2. cbn [bind].
  unfold write.
  rewrite unlines_banner, unlines_interlude, unlines_farewell.
  rewrite <- !app_assoc. reflexivity.
Qed.

(** What [main] writes, as one text. *)
Lemma main_appends (os : ostream) :
  main os
  = Some (0, os ++ unlines banner ++ unlines (frame 1 0 0)
                ++ unlines interlude ++ unlines (frame 30 (-0.75) 0)
                ++ unlines farewell).
Proof.
  exact (main_shape (renderMandelbrot 1 0 0) (renderMandelbrot 30 (-0.75) 0)
           _ _ (renderMandelbrot_appends 1 0 0)
           (renderMandelbrot_appends 30 (-0.75) 0) os).
Qed.

(** X13: [main] returns 0 and, read line by line, writes 1209 lines after
    whatever the stream held: the three banner lines, an empty line and the
    label of the default view; the HEIGHT lines of the frame of view
    (1, 0, 0); an empty line and the label of the zoomed view; the HEIGHT
    lines of the frame of view (30, -0.75, 0); an empty line and the closing
    line.  Every line is ended by a line feed. *)
Theorem main_output (os : ostream) :
  exists out : list ascii,
    main os = Some (0, os ++ out)
    /\ out = unlines (lines out)
    /\ lines out
       = banner ++ frame 1 0 0 ++ interlude ++ frame 30 (-0.75) 0 ++ farewell
    /\ Z.of_nat (length (lines out)) = 5 + HEIGHT + 2 + HEIGHT + 2
    /\ exists default zoomed : list ascii,
         (forall os', renderMandelbrot 1 0 0 os' = Some (os' ++ default))
         /\ (forall os', renderMandelbrot 30 (-0.75) 0 os' = Some (os' ++ zoomed))
         /\ out = unlines banner ++ default ++ unlines interlude
                  ++ zoomed ++ unlines farewell.
Proof.
  exists (unlines (banner ++ frame 1 0 0 ++ interlude
                   ++ frame 30 (-0.75) 0 ++ farewell)).
  assert (Hlines : lines (unlines (banner ++ frame 1 0 0 ++ interlude
                                   ++ frame 30 (-0.75) 0 ++ farewell))
                   = banner ++ frame 1 0 0 ++ interlude
                     ++ frame 30 (-0.75) 0 ++ farewell).
  { apply lines_unlines.
    apply Forall_app. split; [apply no_newline_text; reflexivity|].
    apply Forall_app. split; [apply no_newline_frame|].
    apply Forall_app. split; [apply no_newline_text; reflexivity|].
    apply Forall_app. split; [apply no_newline_frame|].
    apply no_newline_text. reflexivity. }
  split; [rewrite !unlines_app; apply main_appends|].
  rewrite Hlines. split; [reflexivity|]. split; [reflexivity|].
  split.
  - rewrite !length_app, !frame_length.
    change (length banner) with 5%nat.
    change (length interlude) with 2%nat.
    change (length farewell) with 2%nat.
    rewrite !Nat2Z.inj_add, !Z2Nat.id by (unfold HEIGHT; lia). lia.
  - exists (unlines (frame 1 0 0)), (unlines (frame 30 (-0.75) 0)).
    split; [intros os'; apply renderMandelbrot_appends|].
    split; [intros os'; apply renderMandelbrot_appends|].
    rewrite !unlines_app. reflexivity.
Qed.

(** * The colour the renderer computes and the glyph it prints *)

(** X14: the colour the renderer computes for a point and then drops is
    black in two cases: the count is MAX_ITERATIONS (printed as a blank), or
    the point diverges at index 0, that is, its magnitude exceeds 2.0
    (printed as an asterisk).  For every other point the colour is not
    black. *)
Theorem getColor_black_iff (c : complex) (iterations : Z) :
  exists n : Z,
    mandelbrot c iterations = Some (n, n)
    /\ (getColor n = mkColor 0 0 0
        <-> n = MAX_ITERATIONS \/ (2 <? StdComplex.abs c)%float = true).
Proof.
  destruct (mandelbrot_inv c iterations) as (n & Hrun & Hn & _ & Hat).
  exists n. split; [exact Hrun|].
  assert (Hzero : n = 0 <-> (2 <? StdComplex.abs c)%float = true).
  { split.
    - intros ->. specialize (Hat ltac:(unfold MAX_ITERATIONS; lia)).
      change (orbit c (Z.to_nat (0 + 1)))
        with (Complex 0 0 * Complex 0 0 + c)%complex in Hat.
      unfold escaped in Hat. rewrite abs_first_update in Hat. exact Hat.
    - intros Habs.
      pose proof (mandelbrot_first_update c iterations) as H0.
      unfold escaped in H0. rewrite abs_first_update in H0.
      specialize (H0 Habs). rewrite H0 in Hrun.
      injection Hrun as <-. reflexivity. }
  rewrite <- Hzero. split.
  - intros Hblack.
    destruct (Z.eq_dec n MAX_ITERATIONS) as [|Hne]; [left; assumption|].
    right. apply (hue_injective n 0); [lia | unfold MAX_ITERATIONS; lia |].
    unfold getColor in Hblack.
    destruct (n =? MAX_ITERATIONS) eqn:E; [apply Z.eqb_eq in E; lia|].
    injection Hblack as Hhue _ _. exact Hhue.
  - intros [-> | ->]; reflexivity.
Qed.
